(** * Verification of the BOM / ModAcc component-list processing pipeline

    Shallow embedding of the record pipeline of the three processing
    scripts: [process_non_self_purchase_components.py],
    [extract_bom_components.py] and [modacc_accessory_processor.py].

    Python strings are modelled as lists of Unicode code points ([ustr]),
    table cells as either missing (pandas NaN) or the text of the cell.
    Numeric cells after [pd.to_numeric(..., errors='coerce').fillna(0)]
    are rationals. *)

From Stdlib Require Import List Bool ZArith QArith Lia Permutation Sorted String Ascii.
Import ListNotations.
Open Scope Z_scope.

(* ================================================================== *)
(** ** Python strings as code-point lists *)

Definition ustr := list Z.

(** ASCII literal to code points. *)
Fixpoint u (s : string) : ustr :=
  match s with
  | EmptyString => []
  | String c r => Z.of_nat (nat_of_ascii c) :: u r
  end.

Fixpoint ustr_eqb (a b : ustr) : bool :=
  match a, b with
  | [], [] => true
  | x :: a', y :: b' => Z.eqb x y && ustr_eqb a' b'
  | _, _ => false
  end.

Lemma ustr_eqb_eq : forall a b, ustr_eqb a b = true <-> a = b.
Proof.
  induction a as [|x a IH]; destruct b as [|y b]; simpl; split; intro H;
    try congruence.
  - apply andb_true_iff in H as [H1 H2].
    apply Z.eqb_eq in H1; apply IH in H2; subst; reflexivity.
  - injection H as -> ->. rewrite Z.eqb_refl. simpl. apply IH. reflexivity.
Qed.

(** [str.isspace] of CPython: the characters [str.strip()] removes. *)
Definition is_space (c : Z) : bool :=
  ((9 <=? c) && (c <=? 13)) || ((28 <=? c) && (c <=? 32)) ||
  (c =? 133) || (c =? 160) || (c =? 5760) ||
  ((8192 <=? c) && (c <=? 8202)) ||
  (c =? 8232) || (c =? 8233) || (c =? 8239) || (c =? 8287) || (c =? 12288).

Fixpoint lstrip (s : ustr) : ustr :=
  match s with
  | [] => []
  | c :: r => if is_space c then lstrip r else s
  end.

(** [str.strip()]: strip both ends. *)
Definition strip (s : ustr) : ustr := rev (lstrip (rev (lstrip s))).

(** [str.replace(ch, '')]. *)
Definition remove_char (ch : Z) (s : ustr) : ustr :=
  filter (fun c => negb (c =? ch)) s.

(** [str.upper()] / [str.lower()] on the ASCII letters (designators and
    English header spellings are ASCII; CJK characters have no case). *)
Definition upper_char (c : Z) : Z :=
  if (97 <=? c) && (c <=? 122) then c - 32 else c.
Definition lower_char (c : Z) : Z :=
  if (65 <=? c) && (c <=? 90) then c + 32 else c.
Definition py_upper (s : ustr) : ustr := map upper_char s.
Definition py_lower (s : ustr) : ustr := map lower_char s.

Fixpoint startswith (s p : ustr) : bool :=
  match p, s with
  | [], _ => true
  | x :: p', y :: s' => (x =? y) && startswith s' p'
  | _ :: _, [] => false
  end.

(** Python's [p in s]: [p] occurs in [s] as a contiguous substring. *)
Fixpoint contains (s p : ustr) : bool :=
  startswith s p ||
  match s with
  | [] => false
  | _ :: s' => contains s' p
  end.

(* ================================================================== *)
(** ** Cells *)

(** A table cell: missing (NaN / None) or the text [str(val)] gives. *)
Inductive cell := CNa | CStr (s : ustr).

(** [clean_invalid_content]. *)
Definition clean_invalid_content (v : cell) : option ustr :=
  match v with
  | CNa => None
  | CStr s =>
      let s1 := strip s in
      let s2 := remove_char 13 (remove_char 10 (remove_char 9
                  (remove_char 12288 s1))) in
      match s2 with [] => None | _ => Some s2 end
  end.

(** [match_column_name], over the lowering function of [str.lower]. *)
Fixpoint find_col (lower : ustr -> ustr) (cols : list ustr) (t : ustr)
  : option ustr :=
  match cols with
  | [] => None
  | c :: cs => if contains (lower c) (lower t) then Some c
               else find_col lower cs t
  end.

Fixpoint match_column_name_with (lower : ustr -> ustr)
    (df_columns target_names : list ustr) : option ustr :=
  match target_names with
  | [] => None
  | t :: ts =>
      match find_col lower df_columns t with
      | Some c => Some c
      | None => match_column_name_with lower df_columns ts
      end
  end.

Definition match_column_name := match_column_name_with py_lower.

(* ================================================================== *)
(** ** Rows and the purchase classifier
    ([process_non_self_purchase_components.judge_non_self_purchase]) *)

(** A row of a DataFrame: header to cell, in column order. *)
Definition row := list (ustr * cell).

Fixpoint get (col : ustr) (r : row) : cell :=
  match r with
  | [] => CNa
  | (h, v) :: r' => if ustr_eqb h col then v else get col r'
  end.

Definition headers (r : row) : list ustr := map fst r.

(** The variant lists of [column_mapping]. *)
Definition taobao_link_variants : list ustr :=
  [[28120; 23453; 38142; 25509]; [28120; 23453; 32593; 22336];
   u "taobao"; u "taobao url"].
Definition order_config_variants : list ustr :=
  [[19979; 21333; 37197; 32622]; [35268; 26684]; [37197; 32622];
   u "spec"; u "specification"].
Definition min_order_variants : list ustr :=
  [[26368; 23567; 36215; 35746; 37327]; [35746; 36141; 37327];
   [26368; 23567; 35746; 36141; 37327]; u "moq"; u "min order"].

(** [df_copy['clean_x'] = df_copy[x_col].apply(clean_invalid_content)]
    when the column was resolved, [None] otherwise. *)
Definition clean_field (col : option ustr) (r : row) : option ustr :=
  match col with
  | Some c => clean_invalid_content (get c r)
  | None => None
  end.

Definition is_none {A} (o : option A) : bool :=
  match o with None => true | Some _ => false end.

(** The row mask of [judge_non_self_purchase]: the three cleaned
    indicator columns are all missing. [cols] are the DataFrame's columns. *)
Definition non_self_purchase_row (cols : list ustr) (r : row) : bool :=
  let taobao_col := match_column_name cols taobao_link_variants in
  let order_col := match_column_name cols order_config_variants in
  let min_order_col := match_column_name cols min_order_variants in
  is_none (clean_field taobao_col r) &&
  is_none (clean_field order_col r) &&
  is_none (clean_field min_order_col r).

Definition judge_non_self_purchase (cols : list ustr) (df : list row)
  : list row := filter (non_self_purchase_row cols) df.

(* ================================================================== *)
(** ** Component classifier ([classify_component]) *)

Inductive category :=
  | Unknown | Resistor | Capacitor | Diode | Transistor
  | IntegratedCircuit | Switch | Connector | Other.

(** The label strings the source returns. *)
Definition category_label (c : category) : ustr :=
  match c with
  | Unknown => [26410; 30693; 65288; 26080; 20301; 21495; 65289]
  | Resistor => [30005; 38459]
  | Capacitor => [30005; 23481]
  | Diode => [20108; 26497; 31649]
  | Transistor => [26230; 20307; 31649]
  | IntegratedCircuit => [38598; 25104; 30005; 36335]
  | Switch => [24320; 20851]
  | Connector => [36830; 25509; 22120]
  | Other => [20854; 20182]
  end.

Definition classify_component (designator : cell) : category :=
  match designator with
  | CNa => Unknown
  | CStr s =>
      let designator_str := py_upper (strip s) in
      if startswith designator_str (u "R") then Resistor
      else if startswith designator_str (u "C") then Capacitor
      else if startswith designator_str (u "LED") then Diode
      else if startswith designator_str (u "Q") then Transistor
      else if startswith designator_str (u "U") then IntegratedCircuit
      else if startswith designator_str (u "SW") then Switch
      else if existsb (fun p => contains designator_str p)
                      [u "J"; u "CN"; u "USB"] then Connector
      else Other
  end.

(* ================================================================== *)
(** ** Deduplication ([DataFrame.drop_duplicates(subset=..., keep='first')]) *)

Section Dedup.
Context {R K : Type} (key : R -> K).
Context (K_eq_dec : forall x y : K, {x = y} + {x <> y}).

Definition mem_key (k : K) (ks : list K) : bool :=
  existsb (fun k' => if K_eq_dec k k' then true else false) ks.

(** Keep a row iff its key is not among the keys already seen. *)
Fixpoint drop_dup_from (seen : list K) (s : list R) : list R :=
  match s with
  | [] => []
  | r :: s' =>
      if mem_key (key r) seen then drop_dup_from seen s'
      else r :: drop_dup_from (key r :: seen) s'
  end.

Definition drop_duplicates (s : list R) : list R := drop_dup_from [] s.
End Dedup.

(* ================================================================== *)
(** ** Non-self-purchase records and their processing *)

(** A row of [result_df] after [clean_invalid_content] on every column. *)
Record nrec := NRec {
  nr_module : option ustr;
  nr_designator : option ustr;
  nr_supplier_part : option ustr;
  nr_type : option ustr;
  nr_manufacturer_part : option ustr;
  nr_manufacturer : option ustr
}.

Definition opt_ustr_eq_dec : forall x y : option ustr, {x = y} + {x <> y}.
Proof. decide equality. apply list_eq_dec, Z.eq_dec. Defined.

(** [deduplicate_components]: key [Supplier Part]; pandas compares two
    missing keys as equal. *)
Definition deduplicate_components (all_components : list nrec) : list nrec :=
  match all_components with
  | [] => []
  | _ => drop_duplicates nr_supplier_part opt_ustr_eq_dec all_components
  end.

(** The special mask of [split_regular_special]. *)
Definition special_cond (r : nrec) : bool :=
  is_none (nr_designator r) || is_none (nr_supplier_part r) ||
  match nr_type r with
  | Some t => ustr_eqb t (category_label Other)
  | None => false
  end.

(** [components_df[~mask]] and [components_df[mask]]. *)
Definition split_rows (s : list nrec) : list nrec * list nrec :=
  (filter (fun r => negb (special_cond r)) s, filter special_cond s).

Definition fill_na (o : option ustr) : ustr :=
  match o with Some v => v | None => [26080] end.

Definition split_regular_special (s : list nrec)
  : list (list ustr) * list (list ustr) :=
  let '(regular_df, special_df) := split_rows s in
  (map (fun r => [fill_na (nr_type r); fill_na (nr_manufacturer_part r);
                  fill_na (nr_supplier_part r)]) regular_df,
   map (fun r => [fill_na (nr_module r); fill_na (nr_type r);
                  fill_na (nr_manufacturer_part r);
                  fill_na (nr_supplier_part r)]) special_df).

(* ================================================================== *)
(** ** File-name patterns and module names

    [^PREFIX.+-TAG\d+\.\d+(\.\d+)?\.(EXT1|EXT2)$] with the [re] semantics:
    [.] matches any character but a newline, [.+] is greedy (the longest
    group for which the rest matches wins), and [$] matches at the end or
    before a final newline. [ci] is [re.IGNORECASE]. Case folding and
    [\d] are taken on ASCII (the letters and digits of the patterns and of
    version numbers). *)

Record name_pattern := NamePattern {
  np_prefix : ustr;
  np_vtag : Z;
  np_exts : list ustr
}.

(** [^BOM_.+-v\d+\.\d+(\.\d+)?\.(xlsx|xls)$] *)
Definition bom_pattern : name_pattern :=
  NamePattern (u "BOM_") 118 [u "xlsx"; u "xls"].

(** [^ModAcc_.+-V\d+\.\d+(\.\d+)?\.xlsx$] *)
Definition modacc_pattern : name_pattern :=
  NamePattern (u "ModAcc_") 86 [u "xlsx"].

Definition char_match (ci : bool) (a b : Z) : bool :=
  if ci then lower_char a =? lower_char b else a =? b.

(** A literal at the front of [s]: the rest, if it matches. *)
Fixpoint lit (ci : bool) (p s : ustr) : option ustr :=
  match p, s with
  | [], _ => Some s
  | x :: p', y :: s' => if char_match ci x y then lit ci p' s' else None
  | _ :: _, [] => None
  end.

Definition is_digit (c : Z) : bool := (48 <=? c) && (c <=? 57).

(** [\d+]: the maximal digit run (a [.] follows each run, so greedy
    matching never backtracks into it). *)
Fixpoint digit_run (s : ustr) : ustr * ustr :=
  match s with
  | c :: s' => if is_digit c then let '(d, r) := digit_run s' in (c :: d, r)
               else ([], s)
  | [] => ([], [])
  end.

Definition digits1 (s : ustr) : option ustr :=
  match digit_run s with
  | ([], _) => None
  | (_, r) => Some r
  end.

(** [$]: the end, or a final newline; returns what follows the match. *)
Definition at_end (s : ustr) : option ustr :=
  match s with
  | [] => Some []
  | [10] => Some [10]
  | _ => None
  end.

Fixpoint ext_alt (ci : bool) (exts : list ustr) (s : ustr) : option ustr :=
  match exts with
  | [] => None
  | e :: es =>
      match match lit ci e s with Some r => at_end r | None => None end with
      | Some r => Some r
      | None => ext_alt ci es s
      end
  end.

Definition obind {A B} (o : option A) (f : A -> option B) : option B :=
  match o with Some a => f a | None => None end.

(** [-TAG\d+\.\d+(\.\d+)?\.(EXT..)$]: the unmatched remainder, if any. *)
Definition tail_match (ci : bool) (p : name_pattern) (s : ustr)
  : option ustr :=
  obind (lit ci [45; np_vtag p] s) (fun s1 =>
  obind (digits1 s1) (fun s2 =>
  obind (lit ci [46] s2) (fun s3 =>
  obind (digits1 s3) (fun s4 =>
    (* the optional patch group is tried first (greedy [?]) *)
    match obind (lit ci [46] s4) (fun s5 =>
          obind (digits1 s5) (fun s6 =>
          obind (lit ci [46] s6) (fun s7 => ext_alt ci (np_exts p) s7))) with
    | Some r => Some r
    | None => obind (lit ci [46] s4) (fun s5 => ext_alt ci (np_exts p) s5)
    end)))).

(** Group [(.+)] of length [k] (longest first), the rest matching. *)
Fixpoint try_group (ci : bool) (p : name_pattern) (body : ustr) (k : nat)
  : option (ustr * ustr) :=
  match k with
  | O => None
  | S k' =>
      let g := firstn k body in
      match (if existsb (fun c => c =? 10) g then None
             else tail_match ci p (skipn k body)) with
      | Some r => Some (g, r)
      | None => try_group ci p body k'
      end
  end.

(** [re.match]: group 1 and the unmatched remainder. *)
Definition pattern_match (ci : bool) (p : name_pattern) (name : ustr)
  : option (ustr * ustr) :=
  obind (lit ci (np_prefix p) name) (fun body =>
    try_group ci p body (List.length body)).

Definition matches (ci : bool) (p : name_pattern) (name : ustr) : bool :=
  negb (is_none (pattern_match ci p name)).

(** [re.sub(pattern, r'\1', file_name, re.IGNORECASE)]: the fourth
    positional argument of [re.sub] is [count], so [re.IGNORECASE] (= 2)
    is the count and the substitution runs without flags. *)
Definition re_sub_group1 (ci : bool) (p : name_pattern) (name : ustr)
  : ustr :=
  match pattern_match ci p name with
  | Some (g, r) => g ++ r
  | None => name
  end.

Definition module_name_of (p : name_pattern) (file_name : ustr) : ustr :=
  re_sub_group1 false p file_name.

(** Discovery: [pattern.match(file_name)], compiled with [re.IGNORECASE]. *)
Definition discovered (p : name_pattern) (file_name : ustr) : bool :=
  matches true p file_name.

Example module_name_example :
  module_name_of bom_pattern (u "BOM_PowerModule-v1.2.0.xlsx")
  = u "PowerModule".
Proof. vm_compute. reflexivity. Qed.

(* ================================================================== *)
(** ** Self-purchase record extraction
    ([extract_and_format_bom], [extract_and_format_accessory]) *)

Definition taobao_hdr : ustr := [28120; 23453; 38142; 25509].
Definition order_hdr : ustr := [19979; 21333; 37197; 32622].
Definition min_order_hdr : ustr := [26368; 23567; 36215; 35746; 37327].

(** One family of source files: its name pattern, its [core_columns]
    (mandatory) and the columns coerced with [pd.to_numeric]. *)
Record family := Family {
  fam_pattern : name_pattern;
  fam_core : list ustr;
  fam_numeric : list ustr
}.

Definition bom_family : family :=
  Family bom_pattern
    [u "Manufacturer Part"; u "Quantity"; u "Designator"; u "Supplier Part";
     u "LCSC Price"; u "Value"; taobao_hdr; order_hdr; min_order_hdr]
    [u "Quantity"; u "LCSC Price"; u "Value"].

Definition modacc_family : family :=
  Family modacc_pattern
    [u "No."; u "Quantity"; u "Manufacturer Part"; u "Price"; u "Value";
     taobao_hdr; order_hdr; min_order_hdr]
    [u "Quantity"; u "Price"; u "Value"].

(** [filter_columns], the same in both scripts. *)
Definition filter_columns : list ustr := [taobao_hdr; order_hdr; min_order_hdr].

(** A discovered file: its name and what [pd.read_excel(..., dtype=str)]
    gives (header row and data rows), [None] when reading raises. *)
Record src_file := SrcFile {
  f_name : ustr;
  f_table : option (list ustr * list (list cell))
}.

(** A cell after the numeric conversion of [df_calc]. *)
Inductive val := VNa | VStr (s : ustr) | VNum (q : Q).

(** A row of [df_with_module]: module name and the core columns. *)
Record srec := SRec {
  sr_module : ustr;
  sr_cells : list (ustr * val)
}.

(** The messages printed when a file is passed over or extracted. *)
Inductive diag :=
  | DMissing (file : ustr) (missing : list ustr)
  | DNoData (file : ustr)
  | DFailed (file : ustr)
  | DExtracted (file : ustr) (n : nat).

Definition mem_ustr (c : ustr) (l : list ustr) : bool := existsb (ustr_eqb c) l.

(** [missing_cols = [col for col in core_columns if col not in df.columns]]
    after [df.columns = df.columns.str.strip()]. *)
Definition missing_cols (fam : family) (hdrs : list ustr) : list ustr :=
  filter (fun c => negb (mem_ustr c (map strip hdrs))) (fam_core fam).

(** [df[col].notna() & (df[col].str.strip() != '')], or-ed over
    [filter_columns]. *)
Definition self_purchase_row (r : row) : bool :=
  existsb (fun col => match get col r with
                      | CNa => false
                      | CStr s => negb (is_none (head (strip s)))
                      end) filter_columns.

Definition cell_val (c : cell) : val :=
  match c with CNa => VNa | CStr s => VStr s end.

Section Extract.
(** [pd.to_numeric] on one string; [None] where it cannot parse. *)
Variable to_numeric : ustr -> option Q.

(** [pd.to_numeric(..., errors='coerce').fillna(0)]. *)
Definition coerce (c : cell) : Q :=
  match c with
  | CNa => 0%Q
  | CStr s => match to_numeric s with Some q => Qred q | None => 0%Q end
  end.

Definition to_record (fam : family) (module_name : ustr) (r : row) : srec :=
  SRec module_name
    (map (fun c => (c, if mem_ustr c (fam_numeric fam)
                       then VNum (coerce (get c r)) else cell_val (get c r)))
         (fam_core fam)).

(** The body of the [try] block for one matched file. *)
Definition extract_file (fam : family) (f : src_file) : list srec * list diag :=
  let file_name := f_name f in
  match f_table f with
  | None => ([], [DFailed file_name])
  | Some (hdrs, rows) =>
      let cols := map strip hdrs in
      let df := map (combine cols) rows in
      match missing_cols fam hdrs with
      | (_ :: _) as m => ([], [DMissing file_name m])
      | [] =>
          match filter self_purchase_row df with
          | [] => ([], [DNoData file_name])
          | df_filtered =>
              let module_name := module_name_of (fam_pattern fam) file_name in
              let recs := map (to_record fam module_name) df_filtered in
              (recs, [DExtracted file_name (List.length recs)])
          end
      end
  end.

(** The [os.walk] loop over the files in discovery order. *)
Fixpoint extract_run (fam : family) (files : list src_file)
  : list srec * list diag :=
  match files with
  | [] => ([], [])
  | f :: fs =>
      let '(r1, d1) := if discovered (fam_pattern fam) (f_name f)
                       then extract_file fam f else ([], []) in
      let '(r2, d2) := extract_run fam fs in
      (r1 ++ r2, d1 ++ d2)
  end.
End Extract.

(* ================================================================== *)
(** ** Aggregation by module *)

Definition ustr_eq_dec : forall x y : ustr, {x = y} + {x <> y} :=
  list_eq_dec Z.eq_dec.

(** Python's string order: code points, lexicographically. *)
Fixpoint ustr_ltb (a b : ustr) : bool :=
  match a, b with
  | [], [] => false
  | [], _ :: _ => true
  | _ :: _, [] => false
  | x :: a', y :: b' => (x <? y) || ((x =? y) && ustr_ltb a' b')
  end.

Section Sort.
Context {A : Type} (ltb : A -> A -> bool).

Fixpoint insert_sorted (x : A) (l : list A) : list A :=
  match l with
  | [] => [x]
  | y :: l' => if ltb y x then y :: insert_sorted x l' else x :: l
  end.

(** [sort_values]: a sort by the key order (stable insertion sort;
    rows with equal keys only change place among themselves). *)
Fixpoint sort_values (l : list A) : list A :=
  match l with
  | [] => []
  | x :: l' => insert_sorted x (sort_values l')
  end.
End Sort.

Fixpoint lookup_val (c : ustr) (cells : list (ustr * val)) : val :=
  match cells with
  | [] => VNa
  | (h, v) :: t => if ustr_eqb h c then v else lookup_val c t
  end.

(** The [Value] column of a record (numeric after coercion). *)
Definition rec_value (r : srec) : Q :=
  match lookup_val (u "Value") (sr_cells r) with VNum q => q | _ => 0%Q end.

Definition Qsum (l : list Q) : Q := fold_right Qplus 0%Q l.

(** [df.groupby('模块名称')['Value'].sum()]: one row per module, in key
    order (the frame is already sorted by module), the sum of its values. *)
Definition groupby_sum (all : list srec) : list (ustr * Q) :=
  map (fun m => (m, Qsum (map rec_value
                   (filter (fun r => ustr_eqb (sr_module r) m) all))))
      (drop_duplicates (fun m => m) ustr_eq_dec (map sr_module all)).

Fixpoint lookup_total (mt : list (ustr * Q)) (m : ustr) : Q :=
  match mt with
  | [] => 0%Q
  | (k, q) :: t => if ustr_eqb k m then q else lookup_total t m
  end.

(** [pd.merge(df, module_total, on='模块名称', how='left')]. *)
Definition merge_totals (all : list srec) (mt : list (ustr * Q))
  : list (srec * Q) :=
  map (fun r => (r, lookup_total mt (sr_module r))) all.

Definition bom_lt (a b : srec) : bool := ustr_ltb (sr_module a) (sr_module b).

(** [sort_values(by=['模块名称', 'No.'])]; missing [No.] sorts last. *)
Definition modacc_lt (a b : srec) : bool :=
  ustr_ltb (sr_module a) (sr_module b) ||
  (ustr_eqb (sr_module a) (sr_module b) &&
   match lookup_val (u "No.") (sr_cells a), lookup_val (u "No.") (sr_cells b) with
   | VStr x, VStr y => ustr_ltb x y
   | VStr _, VNa => true
   | _, _ => false
   end).

(** [df_with_module_all] of [extract_and_format_bom], with its
    [自采元器件总价] column. *)
Definition bom_module_table (recs : list srec) : list (srec * Q) :=
  let all := sort_values bom_lt recs in merge_totals all (groupby_sum all).

(** [total = df.drop_duplicates(subset=['模块名称'])['自采元器件总价'].sum()]. *)
Definition bom_grand_total (recs : list srec) : Q :=
  Qsum (map snd (drop_duplicates (fun p => sr_module (fst p)) ustr_eq_dec
                                 (bom_module_table recs))).

(** [df_total] of [extract_and_format_accessory], with [模块配件总金额]. *)
Definition modacc_module_table (recs : list srec) : list (srec * Q) :=
  let all := sort_values modacc_lt recs in merge_totals all (groupby_sum all).

(** [Series.unique()] on numbers: first occurrences of distinct values. *)
Fixpoint unique_from (seen : list Q) (l : list Q) : list Q :=
  match l with
  | [] => []
  | q :: l' => if existsb (Qeq_bool q) seen then unique_from seen l'
               else q :: unique_from (q :: seen) l'
  end.

(** [total_amount = df_total['模块配件总金额'].unique().sum()]. *)
Definition modacc_grand_total (recs : list srec) : Q :=
  Qsum (unique_from [] (map snd (modacc_module_table recs))).

(* ------------------------------------------------------------------ *)
(** Concrete inputs. *)

Definition modacc_headers : list ustr := fam_core modacc_family.

(** A ModAcc sheet with one self-purchase row worth [5]. *)
Definition modacc_file (name : string) : src_file :=
  SrcFile (u name)
    (Some (modacc_headers,
           [[CStr (u "1"); CStr (u "5"); CStr (u "Cable"); CStr (u "5");
             CStr (u "5"); CStr (u "https://item.taobao.com/1"); CNa; CNa]])).

Definition two_modacc_files : list src_file :=
  [modacc_file "ModAcc_A-V1.0.xlsx"; modacc_file "ModAcc_B-V1.0.xlsx"].

(** A parser of plain decimal integers, for concrete runs. *)
Definition to_numeric_int (s : ustr) : option Q :=
  let s := strip s in
  match s with
  | [] => None
  | _ => if forallb is_digit s
         then Some (inject_Z (fold_left (fun acc c => acc * 10 + (c - 48)) s 0))
         else None
  end.

(* ================================================================== *)
(** ** Module blocks of the first report
    (the merge and fill loops of [extract_and_format_bom] and
    [extract_and_format_accessory]) *)

(** The loop over rows [3..max_row] of column A: [cur] is the module of
    the open block, which started at row [start]; [row] is the next row. *)
Fixpoint ranges_loop (cur : ustr) (start row : nat) (rest : list ustr)
  : list (nat * nat) :=
  match rest with
  | [] => [(start, row - 1)%nat]
  | v :: rest' =>
      if negb (ustr_eqb v cur) then (start, row - 1)%nat :: ranges_loop v row (S row) rest'
      else ranges_loop cur start (S row) rest'
  end.

(** [module_ranges] of a sheet whose column A holds [vals] in rows
    [2, 3, ...] ([max_row1 = length vals + 1]). *)
Definition module_ranges (vals : list ustr) : list (nat * nat) :=
  match vals with
  | [] => []
  | v :: rest => ranges_loop v 2 3 rest
  end.



(** Blocks laid out from row [s]: a run of [n] equal values [v] covers
    rows [s .. s + n - 1]. *)
Fixpoint ranges_of (s : nat) (runs : list (ustr * nat)) : list (nat * nat) :=
  match runs with
  | [] => []
  | (_, n) :: t => (s, s + n - 1)%nat :: ranges_of (s + n) t
  end.

Definition expand_runs (runs : list (ustr * nat)) : list ustr :=
  List.concat (map (fun p => repeat (fst p) (snd p)) runs).

(** Runs are non-empty and neighbouring runs hold different values. *)
Fixpoint runs_ok (runs : list (ustr * nat)) : Prop :=
  match runs with
  | [] => True
  | (v, n) :: t =>
      (0 < n)%nat /\
      match t with [] => True | (w, _) :: _ => v <> w end /\ runs_ok t
  end.

(* ================================================================== *)
(** ** One BOM file of the non-self-purchase report
    ([process_non_self_purchase_components.process_bom_file], [main]) *)

Fixpoint take_while_not (ch : Z) (s : ustr) : ustr :=
  match s with
  | [] => []
  | c :: s' => if c =? ch then [] else c :: take_while_not ch s'
  end.

(** [os.path.basename] (POSIX separator [/]). *)
Definition basename (p : ustr) : ustr := rev (take_while_not 47 (rev p)).

(** [str.replace(old, '')]: the occurrences of [old] found scanning left
    to right, without overlap, are removed; [skip] counts the characters
    of the occurrence being removed that are still to be dropped. *)
Fixpoint replace_empty_from (old : ustr) (skip : nat) (s : ustr) : ustr :=
  match s with
  | [] => []
  | c :: s' =>
      match skip with
      | S k => replace_empty_from old k s'
      | O => if startswith s old
             then replace_empty_from old (List.length old - 1) s'
             else c :: replace_empty_from old 0 s'
      end
  end.

Definition replace_empty (old s : ustr) : ustr :=
  match old with [] => s | _ => replace_empty_from old 0 s end.

(** [os.path.basename(x).replace('.xlsx', '').replace('.xls', '')]. *)
Definition nonself_module_name (file_path : ustr) : ustr :=
  replace_empty (u ".xls") (replace_empty (u ".xlsx") (basename file_path)).

(** [df[c] = v] for a scalar [v]: overwrite the column, or append it. *)
Definition set_col (c : ustr) (v : cell) (r : row) : row :=
  if existsb (ustr_eqb c) (headers r)
  then map (fun p => if ustr_eqb (fst p) c then (fst p, v) else p) r
  else r ++ [(c, v)].

Definition set_col_name (c : ustr) (cols : list ustr) : list ustr :=
  if existsb (ustr_eqb c) cols then cols else cols ++ [c].

(** The variant lists of [field_mapping]. *)
Definition designator_variants : list ustr :=
  [u "designator"; [20301; 21495]; [20803; 20214; 20301; 21495]].
Definition supplier_part_variants : list ustr :=
  [u "supplier part"; [31435; 21019; 32534; 21495];
   [20379; 24212; 21830; 32534; 21495]; u "supplier p/n"].
Definition manufacturer_part_variants : list ustr :=
  [u "manufacturer part"; [22120; 20214; 22411; 21495]; [22411; 21495];
   u "mfr p/n"; u "manufacturer p/n"].
Definition manufacturer_variants : list ustr :=
  [u "manufacturer"; [21046; 36896; 21830]; [21697; 29260]].

(** [match_column_name(...) or fallback]. *)
Definition resolve_or (cols variants : list ustr) (fallback : ustr) : ustr :=
  match match_column_name cols variants with Some c => c | None => fallback end.

(** [pd.read_excel] gives the header row and the data rows, [None] when
    it raises (the [except] branch returns [None] as well). *)
Definition table := (list ustr * list (list cell))%type.

(** [process_bom_file]: [None] stands for the [None] the function
    returns; a column not present in the frame reads as NaN ([get]
    returns [CNa]), which is what [non_self_df[col] = np.nan] gives. *)
Definition process_bom_file (file_path : ustr) (t : option table)
  : option (list nrec) :=
  match t with
  | None => None
  | Some (hdrs, rows) =>
      let cols := set_col_name (u "file_path") hdrs in
      let df := map (fun cs => set_col (u "file_path") (CStr file_path)
                                       (combine hdrs cs)) rows in
      match judge_non_self_purchase cols df with
      | [] => None
      | non_self_df =>
          let designator_col := resolve_or cols designator_variants (u "Designator") in
          let supplier_part_col :=
            resolve_or cols supplier_part_variants (u "Supplier Part") in
          let manufacturer_part_col :=
            resolve_or cols manufacturer_part_variants (u "Manufacturer Part") in
          let manufacturer_col :=
            resolve_or cols manufacturer_variants (u "Manufacturer") in
          let module := nonself_module_name file_path in
          Some (map (fun r =>
            NRec (clean_invalid_content (CStr module))
                 (clean_invalid_content (get designator_col r))
                 (clean_invalid_content (get supplier_part_col r))
                 (clean_invalid_content
                    (CStr (category_label (classify_component (get designator_col r)))))
                 (clean_invalid_content (get manufacturer_part_col r))
                 (clean_invalid_content (get manufacturer_col r))) non_self_df)
      end
  end.

(** A file seen by [os.walk]: whether it lies below the root (not in the
    root itself), its directory, its name and its table. *)
Record bom_src := BomSrc {
  b_below_root : bool;
  b_dir : ustr;
  b_name : ustr;
  b_table : option table
}.

Definition b_path (f : bom_src) : ustr := b_dir f ++ [47] ++ b_name f.

(** A character class under [re.IGNORECASE] (ASCII letters). *)
Definition in_class (c : Z) (cls : list Z) : bool :=
  existsb (fun d => lower_char d =? lower_char c) cls.

Definition endswith (s suf : ustr) : bool := startswith (rev s) (rev suf).

(** The test of [find_bom_files]. *)
Definition is_bom_name (name : ustr) : bool :=
  match name with
  | a :: b :: c :: _ =>
      in_class a [66; 98] && in_class b [48; 79; 111] && in_class c [77; 109]
  | _ => false
  end && (endswith name (u ".xlsx") || endswith name (u ".xls")).

Definition find_bom_files (files : list bom_src) : list bom_src :=
  filter (fun f => b_below_root f && is_bom_name (b_name f)) files.

(** [main] up to the workbook: [None] when no file gives a component,
    otherwise the two tables [split_regular_special] returns. *)
Definition nonself_main (files : list bom_src)
  : option (list (list ustr) * list (list ustr)) :=
  let all_components :=
    flat_map (fun f => match process_bom_file (b_path f) (b_table f) with
                       | Some l => l
                       | None => []
                       end) (find_bom_files files) in
  match all_components with
  | [] => None
  | _ => Some (split_regular_special (deduplicate_components all_components))
  end.

(* ------------------------------------------------------------------ *)
(** A BOM in the column layout EasyEDA exports, with the three
    purchase-indicator columns appended. *)

Definition easy_pre : list ustr :=
  [u "ID"; u "Name"; u "Designator"; u "Footprint"; u "Quantity"].
Definition easy_post : list ustr :=
  [u "Manufacturer"; u "Supplier"; u "Supplier Part"; u "LCSC Price";
   taobao_hdr; order_hdr; min_order_hdr].
Definition easy_hdrs : list ustr := easy_pre ++ u "Manufacturer Part" :: easy_post.

Definition easy_row (id name des part mfr sup link : string) : list cell :=
  [CStr (u id); CStr (u name); CStr (u des); CStr (u "0402"); CStr (u "1");
   CStr (u part); CStr (u mfr); CStr (u "LCSC"); CStr (u sup); CStr (u "0.01");
   (if String.eqb link EmptyString then CNa else CStr (u link)); CNa; CNa].

Definition easy_rows : list (list cell) :=
  [easy_row "1" "10k" "R1,R2" "RC0402FR-0710KL" "YAGEO" "C25744" "";
   easy_row "2" "ESP32-S3" "U1" "ESP32-S3" "Espressif" "C2913202"
            "https://item.taobao.com/1";
   easy_row "3" "Header" "H1" "PZ254-1-04" "XFCN" "C2337" "";
   easy_row "4" "10k" "R7" "RC0402FR-0710KL" "YAGEO" "C25744" ""].

Definition easy_bom : bom_src :=
  BomSrc true (u "PowerModule") (u "BOM_PowerModule-v1.0.xlsx")
         (Some (easy_hdrs, easy_rows)).

Definition easy_recs : list nrec :=
  match process_bom_file (b_path easy_bom) (b_table easy_bom) with
  | Some l => l
  | None => []
  end.

(* ------------------------------------------------------------------ *)
(** File names of the shape the two name patterns describe:
    [PREFIX<group>-TAG<d1>.<d2>[.<d3>].<ext>]. *)

Definition version_str (d1 d2 : ustr) (d3 : option ustr) : ustr :=
  d1 ++ [46] ++ d2 ++ match d3 with Some d => [46] ++ d | None => [] end.

Definition pattern_name (p : name_pattern) (g ver ext : ustr) : ustr :=
  np_prefix p ++ g ++ [45; np_vtag p] ++ ver ++ [46] ++ ext.

Definition digit_str (d : ustr) : bool :=
  negb (is_none (head d)) && forallb is_digit d.

(* ------------------------------------------------------------------ *)
(** ** The workbook of the non-self-purchase report ([format_excel_file])

    The sheet is the sequence of cell writes the function performs, in
    order; reading a cell gives the last value written to it, as
    openpyxl does. *)

(** ['元器件类型', '元器件名字', '元器件编号'] *)
Definition regular_headers : list ustr :=
  [[20803; 22120; 20214; 31867; 22411]; [20803; 22120; 20214; 21517; 23383];
   [20803; 22120; 20214; 32534; 21495]].

(** ['模块名称', '元器件类型', '元器件名字', '元器件编号'] *)
Definition special_headers : list ustr := [27169; 22359; 21517; 31216] :: regular_headers.

(** ["特殊非自采器件（含模块信息）"] *)
Definition special_title : ustr :=
  [29305; 27530; 38750; 33258; 37319; 22120; 20214; 65288; 21547; 27169; 22359;
   20449; 24687; 65289].

Inductive fill := Gray | White.

(** [ws.cell(row, column, value=...)], [cell.fill = ...], [cell.font = header_font]. *)
Inductive ev :=
  | SetVal (r c : nat) (v : ustr)
  | SetFill (r c : nat) (f : fill)
  | SetBold (r c : nat).

Definition pos_of (e : ev) : nat * nat :=
  match e with SetVal r c _ | SetFill r c _ | SetBold r c => (r, c) end.

Definition ev_val (e : ev) : option (nat * nat * ustr) :=
  match e with SetVal r c v => Some (r, c, v) | _ => None end.

Definition ev_fill (e : ev) : option (nat * nat * fill) :=
  match e with SetFill r c f => Some (r, c, f) | _ => None end.

Definition last_step {A} (proj : ev -> option (nat * nat * A)) (r c : nat)
  (acc : option A) (e : ev) : option A :=
  match proj e with
  | Some (r', c', a) => if Nat.eqb r' r && Nat.eqb c' c then Some a else acc
  | None => acc
  end.

Definition cell_value (evs : list ev) (r c : nat) : option ustr :=
  fold_left (last_step ev_val r c) evs None.


(** A header row: each header written and made bold. *)
Definition write_headers (r : nat) (hdrs : list ustr) : list ev :=
  flat_map (fun p => [SetVal r (fst p) (snd p); SetBold r (fst p)])
    (combine (seq 1 (List.length hdrs)) hdrs).

(** [gray_fill if idx % 2 == 0 else white_fill] *)
Definition row_fill_of (idx : nat) : fill := if Nat.even idx then Gray else White.

(** The data rows of one table, from row [cur], [idx] counting from 1:
    the [n] values of a row, then its [n] fills. *)
Fixpoint write_data (n cur idx : nat) (rows : list (list ustr)) : list ev :=
  match rows with
  | [] => []
  | r :: rs =>
      map (fun p => SetVal cur (fst p) (snd p)) (combine (seq 1 n) r)
      ++ map (fun c => SetFill cur c (row_fill_of idx)) (seq 1 n)
      ++ write_data n (S cur) (S idx) rs
  end.

(** The writes of [format_excel_file]: the regular table from row 1, then,
    when there are special rows, an empty row, the title, the special
    header and the special rows. *)
Definition format_events (regular special : list (list ustr)) : list ev :=
  write_headers 1 regular_headers
  ++ write_data 3 2 1 regular
  ++ match special with
     | [] => []
     | _ :: _ =>
         let cur := (List.length regular + 3)%nat in
         [SetVal cur 1 special_title; SetBold cur 1]
         ++ write_headers (S cur) special_headers
         ++ write_data 4 (S (S cur)) 1 special
     end.

(** [ws.max_row]: the last row holding a cell (1 on an empty sheet). *)
Definition max_row (evs : list ev) : nat :=
  fold_left (fun m e => Nat.max m (fst (pos_of e))) evs 1%nat.

(** [2 if '一' <= c <= '鿿' else 1] *)
Definition char_width (c : Z) : nat :=
  if (19968 <=? c) && (c <=? 40959) then 2 else 1.

Definition char_count (s : ustr) : nat :=
  fold_right (fun c n => (char_width c + n)%nat) 0%nat s.

(** [str(ws.cell(...).value)]: an empty cell reads as ["None"]. *)
Definition str_value (o : option ustr) : ustr :=
  match o with Some s => s | None => u "None" end.

(** One column of [auto_adjust_column_width]: the header's [len], then
    the counted width of every cell from row 2 to [max_row], times 1.1. *)
Definition column_width (evs : list ev) (mr col : nat) (h : ustr) : Q :=
  let m := fold_left (fun m r => Nat.max m (char_count (str_value (cell_value evs r col))))
             (seq 2 (mr - 1)) (List.length h) in
  inject_Z (Z.of_nat m) * (11 # 10).

Definition auto_adjust_column_width (evs : list ev) (hdrs : list ustr)
  : list (nat * Q) :=
  map (fun p => (fst p, column_width evs (max_row evs) (fst p) (snd p)))
    (combine (seq 1 (List.length hdrs)) hdrs).

(** The column widths set, in order: the regular headers' columns, then,
    with special rows, the special headers' columns. *)
Definition format_widths (regular special : list (list ustr)) : list (nat * Q) :=
  let evs := format_events regular special in
  auto_adjust_column_width evs regular_headers
  ++ match special with
     | [] => []
     | _ :: _ => auto_adjust_column_width evs special_headers
     end.

Definition width_step (col : nat) (acc : option Q) (p : nat * Q) : option Q :=
  if Nat.eqb (fst p) col then Some (snd p) else acc.

(** The width a column ends with: the last one set. *)
Definition width_of (ws : list (nat * Q)) (col : nat) : option Q :=
  fold_left (width_step col) ws None.

(** The report tables of the EasyEDA sample, and of its regular records alone. *)
Definition easy_tables : list (list ustr) * list (list ustr) :=
  split_regular_special easy_recs.

Definition easy_regular_recs : list nrec :=
  filter (fun r => negb (special_cond r)) easy_recs.

(* ------------------------------------------------------------------ *)
(** ** The type tables of the extraction scripts (file 2) *)

Definition Q_eq_dec (x y : Q) : {x = y} + {x <> y}.
Proof. decide equality; [apply Pos.eq_dec|apply Z.eq_dec]. Defined.

Definition val_eq_dec (x y : val) : {x = y} + {x <> y}.
Proof. decide equality; [apply ustr_eq_dec|apply Q_eq_dec]. Defined.

(** pandas compares numbers by value: [5] and [5.0] are one key. *)
Definition norm_val (v : val) : val :=
  match v with VNum q => VNum (Qred q) | _ => v end.

Definition type_key (ucols : list ustr) (cells : list (ustr * val)) : list val :=
  map (fun c => norm_val (lookup_val c cells)) ucols.

(** [unique_type_cols] of the two scripts. *)
Definition bom_unique_cols : list ustr :=
  [u "Manufacturer Part"; u "Supplier Part"; u "LCSC Price"; taobao_hdr].
Definition modacc_unique_cols : list ustr :=
  [u "Manufacturer Part"; u "Price"; taobao_hdr].

(** [df[core_columns].drop_duplicates(subset=unique_type_cols, keep='first')]
    (the record cells are the core columns). *)
Definition type_table (ucols : list ustr) (tbl : list (srec * Q))
  : list (list (ustr * val)) :=
  drop_duplicates (type_key ucols) (list_eq_dec val_eq_dec)
    (map (fun p => sr_cells (fst p)) tbl).

Definition bom_type_table (recs : list srec) : list (list (ustr * val)) :=
  type_table bom_unique_cols (bom_module_table recs).

(** [df_unique['No.'] = range(1, len(df_unique) + 1)] *)
Definition renumber (k : nat) (cells : list (ustr * val)) : list (ustr * val) :=
  map (fun p => if ustr_eqb (fst p) (u "No.") then (fst p, VNum (inject_Z (Z.of_nat k)))
                else p) cells.

Definition modacc_type_table (recs : list srec) : list (list (ustr * val)) :=
  let t := type_table modacc_unique_cols (modacc_module_table recs) in
  map (fun p => renumber (fst p) (snd p)) (combine (seq 1 (List.length t)) t).

(** Accessory records as [extract_and_format_accessory] reads them, for
    evaluating the type table on a concrete input. *)
Definition modacc_rec (m n part : string) (price : Q) (link : string) : srec :=
  SRec (u m) [(u "No.", VStr (u n)); (u "Quantity", VNum 1); (u "Manufacturer Part", VStr (u part));
    (u "Price", VNum price); (u "Value", VNum price);
    (taobao_hdr, VStr (u link)); (order_hdr, VNa); (min_order_hdr, VNa)].

Definition modacc_sample : list srec :=
  [modacc_rec "MotorDriver" "2" "M3 nut" (1#10) "l1";
   modacc_rec "MotorDriver" "5" "Cable" (3#2) "l2";
   modacc_rec "Sensor" "1" "M3 nut" (1#10) "l1"].

(* ================================================================== *)
(** * Theorems *)

(* ------------------------------------------------------------------ *)
(** ** Aggregation *)

(** C1 (code bug in [extract_and_format_accessory]): two ModAcc modules
    whose totals are both 5. The per-module totals are 5 and 5, the record
    values sum to 10, but the reported grand total
    [df_total['模块配件总金额'].unique().sum()] is 5: equal totals of
    distinct modules are counted once. *)
Theorem modacc_grand_total_drops_equal_module_totals :
  forall to_numeric, to_numeric (u "5") = Some 5%Q ->
  let recs := fst (extract_run to_numeric modacc_family two_modacc_files) in
  map snd (groupby_sum recs) = [5%Q; 5%Q] /\
  Qsum (map rec_value recs) == 10 /\
  modacc_grand_total recs == 5.
Proof.
  intros tn H. vm_compute in H. vm_compute. rewrite H. vm_compute.
  repeat split; reflexivity.
Qed.

Lemma modacc_grand_total_drops_equal_module_totals_witness :
  to_numeric_int (u "5") = Some 5%Q /\
  let recs := fst (extract_run to_numeric_int modacc_family two_modacc_files) in
  map snd (groupby_sum recs) = [5%Q; 5%Q] /\
  Qsum (map rec_value recs) == 10 /\
  modacc_grand_total recs == 5.
Proof.
  split; [reflexivity|].
  apply modacc_grand_total_drops_equal_module_totals. reflexivity.
Defined.

(* ------------------------------------------------------------------ *)
(** ** Deduplication: general facts *)

Section DedupFacts.
Context {R K : Type} (key : R -> K).
Context (dec : forall x y : K, {x = y} + {x <> y}).

Lemma mem_key_In : forall k ks, mem_key dec k ks = true <-> In k ks.
Proof.
  intros k ks. unfold mem_key. rewrite existsb_exists. split.
  - intros [k' [Hin Hk]]. destruct (dec k k'); [subst; exact Hin|discriminate].
  - intro Hin. exists k. split; [exact Hin|]. destruct (dec k k); congruence.
Qed.

Lemma mem_key_false : forall k ks, mem_key dec k ks = false <-> ~ In k ks.
Proof.
  intros k ks. rewrite <- mem_key_In. destruct (mem_key dec k ks);
    split; intro H; congruence.
Qed.

(** The keys seen after a scan. *)
Fixpoint seen_after (seen : list K) (s : list R) : list K :=
  match s with
  | [] => seen
  | r :: s' => if mem_key dec (key r) seen then seen_after seen s'
               else seen_after (key r :: seen) s'
  end.

Lemma seen_after_In : forall s seen k,
  In k (seen_after seen s) <-> In k seen \/ In k (map key s).
Proof.
  induction s as [|r s IH]; intros seen k; simpl.
  - tauto.
  - destruct (mem_key dec (key r) seen) eqn:E.
    + apply mem_key_In in E. rewrite IH. split; [tauto|].
      intros [H|[H|H]]; auto. left; subst; exact E.
    + rewrite IH. simpl. tauto.
Qed.

Lemma drop_dup_from_app : forall s t seen,
  drop_dup_from key dec seen (s ++ t) =
  drop_dup_from key dec seen s ++ drop_dup_from key dec (seen_after seen s) t.
Proof.
  induction s as [|r s IH]; intros t seen; simpl; [reflexivity|].
  destruct (mem_key dec (key r) seen); rewrite IH; reflexivity.
Qed.

Lemma drop_dup_from_keys : forall s seen,
  NoDup (map key (drop_dup_from key dec seen s)) /\
  forall k, In k (map key (drop_dup_from key dec seen s)) -> ~ In k seen.
Proof.
  induction s as [|r s IH]; intros seen; simpl.
  - split; [constructor|tauto].
  - destruct (mem_key dec (key r) seen) eqn:E; [apply IH|].
    apply mem_key_false in E. destruct (IH (key r :: seen)) as [Hn Hd].
    simpl. split.
    + constructor; [|exact Hn]. intro Hin. apply (Hd _ Hin). left; reflexivity.
    + intros k [Hk|Hk]; [subst; exact E|].
      intro Hs. apply (Hd _ Hk). right; exact Hs.
Qed.

Lemma drop_dup_from_nodup : forall s seen,
  NoDup (map key s) -> (forall k, In k (map key s) -> ~ In k seen) ->
  drop_dup_from key dec seen s = s.
Proof.
  induction s as [|r s IH]; intros seen Hn Hd; simpl; [reflexivity|].
  inversion Hn as [|? ? Hr Hn']; subst.
  destruct (mem_key dec (key r) seen) eqn:E.
  - apply mem_key_In in E. exfalso. apply (Hd (key r)); [left; reflexivity|exact E].
  - f_equal. apply IH; [exact Hn'|].
    intros k Hk [Hs|Hs]; [subst; exact (Hr Hk)|].
    apply (Hd k); [right; exact Hk|exact Hs].
Qed.

(** For one key value, the scan keeps at most the first record with it. *)
Lemma drop_dup_from_filter_key : forall s seen k,
  filter (fun r => if dec (key r) k then true else false)
         (drop_dup_from key dec seen s) =
  if mem_key dec k seen then []
  else firstn 1 (filter (fun r => if dec (key r) k then true else false) s).
Proof.
  induction s as [|r s IH]; intros seen k; simpl.
  - destruct (mem_key dec k seen); reflexivity.
  - destruct (mem_key dec (key r) seen) eqn:E.
    + rewrite IH. destruct (dec (key r) k) as [Hk|Hne];
        [subst k; rewrite E; reflexivity|].
      reflexivity.
    + simpl. destruct (dec (key r) k) as [Hk|Hne]; [subst k|].
      * rewrite E, IH. simpl. destruct (dec (key r) (key r)); [|congruence].
        reflexivity.
      * rewrite IH. simpl. destruct (dec k (key r)) as [Heq|_];
          [congruence|reflexivity].
Qed.

Lemma drop_dup_from_map : forall {A} (f : A -> R) (l : list A) seen,
  drop_dup_from key dec seen (map f l) =
  map f (drop_dup_from (fun a => key (f a)) dec seen l).
Proof.
  intros A f. induction l as [|a l IH]; intros seen; simpl; [reflexivity|].
  destruct (mem_key dec (key (f a)) seen); simpl; rewrite IH; reflexivity.
Qed.

Lemma drop_dup_from_In : forall s seen r,
  In r (drop_dup_from key dec seen s) -> In r s.
Proof.
  induction s as [|x s IH]; intros seen r; simpl; [tauto|].
  destruct (mem_key dec (key x) seen); simpl.
  - intro H. right. eapply IH; exact H.
  - intros [H|H]; [left; exact H|right; eapply IH; exact H].
Qed.

Lemma drop_dup_from_cover : forall s seen r,
  In r s -> In (key r) seen \/ In (key r) (map key (drop_dup_from key dec seen s)).
Proof.
  induction s as [|x s IH]; intros seen r; simpl; [tauto|].
  intros [Hx|H]; [subst x|].
  - destruct (mem_key dec (key r) seen) eqn:E.
    + left. apply mem_key_In; exact E.
    + right. left. reflexivity.
  - destruct (mem_key dec (key x) seen) eqn:E.
    + apply IH; exact H.
    + destruct (IH (key x :: seen) r H) as [[Hk|Hk]|Hk].
      * right. left. exact Hk.
      * left. exact Hk.
      * right. right. exact Hk.
Qed.
End DedupFacts.

(* ------------------------------------------------------------------ *)
(** ** Deduplication: the claims *)

(** C5: [drop_duplicates(subset=key, keep='first')] scans the records in
    order and outputs a record, unchanged, exactly when its key has not
    occurred among the earlier records; later records with a seen key are
    removed. Appending a record [r] to the input appends [r] itself to the
    output iff no earlier record has its key, and nothing otherwise. *)
Theorem drop_duplicates_keeps_first_occurrence :
  forall (R K : Type) (key : R -> K) (dec : forall x y : K, {x = y} + {x <> y}),
  drop_duplicates key dec [] = [] /\
  forall (s : list R) (r : R),
    drop_duplicates key dec (s ++ [r]) =
    drop_duplicates key dec s ++
      (if mem_key dec (key r) (map key s) then [] else [r]).
Proof.
  intros R K key dec. split; [reflexivity|].
  intros s r. unfold drop_duplicates. rewrite drop_dup_from_app. f_equal.
  simpl. destruct (mem_key dec (key r) (seen_after key dec [] s)) eqn:E1;
    destruct (mem_key dec (key r) (map key s)) eqn:E2; try reflexivity.
  - apply mem_key_In, seen_after_In in E1. apply mem_key_false in E2.
    simpl in E1. tauto.
  - apply mem_key_false in E1. apply mem_key_In in E2.
    exfalso. apply E1, seen_after_In. right. exact E2.
Qed.

(** C8: deduplication is idempotent. *)
Theorem drop_duplicates_idempotent :
  forall (R K : Type) (key : R -> K) (dec : forall x y : K, {x = y} + {x <> y})
         (s : list R),
  drop_duplicates key dec (drop_duplicates key dec s) = drop_duplicates key dec s.
Proof.
  intros R K key dec s. unfold drop_duplicates.
  destruct (drop_dup_from_keys key dec s []) as [Hn _].
  apply drop_dup_from_nodup; [exact Hn|]. intros k _ H; exact H.
Qed.

(** C9: in the non-self-purchase pipeline all records whose cleaned
    [Supplier Part] is missing share the key; after
    [deduplicate_components] the records with a missing [Supplier Part]
    are exactly the first such record of the input, if any. *)
Theorem deduplicate_components_one_missing_supplier_part :
  forall s : list nrec,
  filter (fun r => is_none (nr_supplier_part r)) (deduplicate_components s) =
  firstn 1 (filter (fun r => is_none (nr_supplier_part r)) s).
Proof.
  intros s.
  assert (Hf : forall l : list nrec,
    filter (fun r => is_none (nr_supplier_part r)) l =
    filter (fun r => if opt_ustr_eq_dec (nr_supplier_part r) None
                     then true else false) l).
  { intros l. apply filter_ext. intros r.
    destruct (nr_supplier_part r); reflexivity. }
  destruct s as [|r0 s']; [reflexivity|].
  unfold deduplicate_components, drop_duplicates.
  rewrite !Hf, drop_dup_from_filter_key. reflexivity.
Qed.

(* ------------------------------------------------------------------ *)
(** ** Regular / special split *)

Lemma filter_partition_perm : forall {A} (p : A -> bool) (l : list A),
  Permutation l (filter (fun x => negb (p x)) l ++ filter p l).
Proof.
  intros A p. induction l as [|x l IH]; simpl; [constructor|].
  destruct (p x); simpl.
  - apply Permutation_cons_app. exact IH.
  - constructor. exact IH.
Qed.

Lemma special_cond_spec : forall r,
  special_cond r = true <->
  nr_designator r = None \/ nr_supplier_part r = None \/
  nr_type r = Some (category_label Other).
Proof.
  intros [m d sp t mp mf]. unfold special_cond; simpl.
  rewrite !orb_true_iff.
  destruct d, sp; simpl; try (split; [intros _|]; auto; fail);
    destruct t as [t|]; simpl;
    try rewrite ustr_eqb_eq; split; intros H;
    repeat match goal with
           | H : _ \/ _ |- _ => destruct H
           | H : Some _ = None |- _ => discriminate H
           | H : None = Some _ |- _ => discriminate H
           | H : false = true |- _ => discriminate H
           | H : Some _ = Some _ |- _ => injection H as H
           end; subst; auto.
Qed.

(** C10: [split_regular_special] partitions the deduplicated records:
    the regular and special row sets together are a permutation of the
    input (each record in exactly one of them), a record is special iff
    its Designator is missing, or its Supplier Part is missing, or its
    category is the 'other' label, and the two output tables have one row
    per selected record. *)
Theorem split_regular_special_partition : forall s : list nrec,
  let '(regular_df, special_df) := split_rows s in
  Permutation s (regular_df ++ special_df) /\
  (forall r, In r special_df <->
     In r s /\ (nr_designator r = None \/ nr_supplier_part r = None \/
                nr_type r = Some (category_label Other))) /\
  (forall r, In r regular_df <->
     In r s /\ ~ (nr_designator r = None \/ nr_supplier_part r = None \/
                  nr_type r = Some (category_label Other))) /\
  List.length (fst (split_regular_special s)) = List.length regular_df /\
  List.length (snd (split_regular_special s)) = List.length special_df.
Proof.
  intros s. unfold split_regular_special, split_rows. simpl.
  split; [apply filter_partition_perm|].
  split; [|split]; [intros r; rewrite filter_In, special_cond_spec; tauto
                   |intros r; rewrite filter_In, negb_true_iff,
                      <- special_cond_spec; split;
                      [intros [H1 H2]; rewrite H2; split; [exact H1|discriminate]
                      |intros [H1 H2]; split; [exact H1|];
                       destruct (special_cond r); [contradiction H2|]; reflexivity]
                   |].
  rewrite !length_map. split; reflexivity.
Qed.

(* ------------------------------------------------------------------ *)
(** ** Whitespace cleaning and the purchase classifier *)

Lemma lstrip_suffix : forall s, exists p, s = p ++ lstrip s.
Proof.
  induction s as [|c s [p Hp]]; simpl; [exists []; reflexivity|].
  destruct (is_space c).
  - exists (c :: p). simpl. f_equal. exact Hp.
  - exists []. reflexivity.
Qed.

Lemma lstrip_head : forall s x t, lstrip s = x :: t -> is_space x = false.
Proof.
  induction s as [|c s IH]; simpl; intros x t H; [discriminate|].
  destruct (is_space c) eqn:E; [eapply IH; exact H|].
  injection H as -> _. exact E.
Qed.

(** The first character of [strip s] is not whitespace. *)
Lemma strip_head : forall s x t, strip s = x :: t -> is_space x = false.
Proof.
  intros s x t H. unfold strip in H.
  destruct (lstrip_suffix (rev (lstrip s))) as [p Hp].
  assert (HL : lstrip (rev (lstrip s)) = rev t ++ [x]).
  { rewrite <- (rev_involutive (lstrip (rev (lstrip s)))), H. reflexivity. }
  rewrite HL in Hp.
  assert (Hs : lstrip s = x :: rev (p ++ rev t)).
  { rewrite <- (rev_involutive (lstrip s)), Hp.
    rewrite app_assoc, rev_app_distr. reflexivity. }
  eapply lstrip_head. exact Hs.
Qed.

Lemma remove_char_cons_keep : forall ch x t,
  x <> ch -> remove_char ch (x :: t) = x :: remove_char ch t.
Proof.
  intros ch x t H. unfold remove_char. simpl.
  destruct (Z.eqb_spec x ch); [contradiction|reflexivity].
Qed.

(** [clean_invalid_content] of a text is missing iff the text strips to
    the empty string. *)
Lemma clean_invalid_content_none : forall s,
  clean_invalid_content (CStr s) = None <-> strip s = [].
Proof.
  intros s. unfold clean_invalid_content.
  destruct (strip s) as [|x t] eqn:E; [split; reflexivity|].
  pose proof (strip_head s x t E) as Hx.
  assert (H : forall ch, is_space ch = true -> x <> ch).
  { intros ch Hch ->. congruence. }
  rewrite (remove_char_cons_keep 12288) by (apply H; reflexivity).
  rewrite (remove_char_cons_keep 9) by (apply H; reflexivity).
  rewrite (remove_char_cons_keep 10) by (apply H; reflexivity).
  rewrite (remove_char_cons_keep 13) by (apply H; reflexivity).
  split; discriminate.
Qed.

(** An indicator field counts as blank: unresolved, missing, or text that
    strips to the empty string. *)
Definition indicator_blank (col : option ustr) (r : row) : Prop :=
  match col with
  | None => True
  | Some c => match get c r with
              | CNa => True
              | CStr s => strip s = []
              end
  end.

Lemma clean_field_none : forall col r,
  is_none (clean_field col r) = true <-> indicator_blank col r.
Proof.
  intros [c|] r; [|simpl; tauto].
  unfold indicator_blank, clean_field.
  destruct (get c r) as [|s]; [simpl; tauto|].
  rewrite <- clean_invalid_content_none.
  destruct (clean_invalid_content (CStr s)); simpl; split; congruence.
Qed.

(** C2: the purchase classifier of [judge_non_self_purchase] is a total
    boolean function of the row and the resolved columns; a row is
    non-self-purchase iff each of the three indicator fields is unresolved,
    missing or strips to the empty string, and self-purchase iff one of
    them is present and not blank. *)
Theorem non_self_purchase_iff_all_blank : forall (cols : list ustr) (r : row),
  let taobao_col := match_column_name cols taobao_link_variants in
  let order_col := match_column_name cols order_config_variants in
  let min_order_col := match_column_name cols min_order_variants in
  (non_self_purchase_row cols r = true <->
     indicator_blank taobao_col r /\ indicator_blank order_col r /\
     indicator_blank min_order_col r) /\
  (non_self_purchase_row cols r = false <->
     ~ indicator_blank taobao_col r \/ ~ indicator_blank order_col r \/
     ~ indicator_blank min_order_col r).
Proof.
  intros cols r. simpl. unfold non_self_purchase_row.
  rewrite <- !clean_field_none.
  destruct (is_none (clean_field (match_column_name cols taobao_link_variants) r));
  destruct (is_none (clean_field (match_column_name cols order_config_variants) r));
  destruct (is_none (clean_field (match_column_name cols min_order_variants) r));
  simpl; split; split; intro H;
    repeat match goal with H : _ /\ _ |- _ => destruct H end;
    try discriminate; try (repeat split; reflexivity);
    try (destruct H as [H|[H|H]]; exfalso; apply H; reflexivity);
    first [left; discriminate | right; left; discriminate
          | right; right; discriminate].
Qed.

(* ------------------------------------------------------------------ *)
(** ** Column resolution *)

Section Resolve.
Variable lower : ustr -> ustr.

Definition hits (h t : ustr) : bool := contains (lower h) (lower t).

Lemma find_col_none : forall cols t,
  find_col lower cols t = None <-> forall h, In h cols -> hits h t = false.
Proof.
  induction cols as [|c cs IH]; intros t; simpl; [split; tauto|].
  unfold hits in *. destruct (contains (lower c) (lower t)) eqn:E.
  - split; [discriminate|]. intros H. rewrite (H c (or_introl eq_refl)) in E.
    discriminate.
  - rewrite IH. split.
    + intros H h [<-|Hh]; [exact E|apply H; exact Hh].
    + intros H h Hh. apply H. right. exact Hh.
Qed.

Lemma find_col_some : forall cols t h,
  find_col lower cols t = Some h <->
  exists cols1 cols2, cols = cols1 ++ h :: cols2 /\ hits h t = true /\
    forall h', In h' cols1 -> hits h' t = false.
Proof.
  induction cols as [|c cs IH]; intros t h; simpl.
  - split; [discriminate|]. intros [[|? ?] [? [H _]]]; discriminate.
  - unfold hits in *. destruct (contains (lower c) (lower t)) eqn:E; split.
    + intros H. injection H as <-. exists [], cs. repeat split; auto.
      intros h' [].
    + intros [[|c1 cols1] [cols2 [Hc [Hh Hb]]]].
      * injection Hc as Hc1 _. subst h. reflexivity.
      * injection Hc as Hc1 _. subst c1. rewrite (Hb c (or_introl eq_refl)) in E.
        discriminate.
    + intros H. apply IH in H as [cols1 [cols2 [Hc [Hh Hb]]]].
      exists (c :: cols1), cols2. rewrite Hc. repeat split; auto.
      intros h' [<-|Hh']; [exact E|apply Hb; exact Hh'].
    + intros [[|c1 cols1] [cols2 [Hc [Hh Hb]]]].
      * injection Hc as Hc1 _. subst h. congruence.
      * injection Hc as Hc1 Hc. subst c1. apply IH. exists cols1, cols2.
        repeat split; auto. intros h' Hh'. apply Hb. right. exact Hh'.
Qed.

(** C7: [match_column_name] returns the first header, trying the
    variants in their listed order and, for each variant, the headers in
    column order, whose lowered text contains the lowered variant; it
    returns [None] iff no header contains any variant. It is a function
    of the headers and the variant list alone (deterministic). *)
Theorem match_column_name_first_hit : forall cols ts,
  (match_column_name_with lower cols ts = None <->
     forall t h, In t ts -> In h cols -> hits h t = false) /\
  forall h,
    match_column_name_with lower cols ts = Some h <->
    exists ts1 t ts2 cols1 cols2,
      ts = ts1 ++ t :: ts2 /\ cols = cols1 ++ h :: cols2 /\
      hits h t = true /\
      (forall t' h', In t' ts1 -> In h' cols -> hits h' t' = false) /\
      (forall h', In h' cols1 -> hits h' t = false).
Proof.
  intros cols. induction ts as [|t ts IH]; simpl.
  - split; [split; [intros _ t h []|reflexivity]|].
    intros h. split; [discriminate|].
    intros [[|? ?] [? [? [? [? [Hts _]]]]]]; discriminate.
  - destruct IH as [IHn IHs].
    destruct (find_col lower cols t) as [c|] eqn:E; split.
    + split; [discriminate|]. intros H.
      apply find_col_some in E as [cols1 [cols2 [Hc [Hh _]]]].
      rewrite (H t c (or_introl eq_refl)) in Hh; [discriminate|].
      rewrite Hc. apply in_or_app. right. left. reflexivity.
    + intros h. split.
      * intros H. injection H as <-.
        apply find_col_some in E as [cols1 [cols2 [Hc [Hh Hb]]]].
        exists [], t, ts, cols1, cols2. repeat split; auto.
        intros t' h' [].
      * intros [[|t1 ts1] [t' [ts2 [cols1 [cols2 [Hts [Hc [Hh [Hb1 Hb2]]]]]]]]].
        -- injection Hts as <- _. f_equal.
           assert (Hs : find_col lower cols t = Some h)
             by (apply find_col_some; exists cols1, cols2; auto).
           congruence.
        -- injection Hts as <- _.
           apply find_col_some in E as [cols1' [cols2' [Hc' [Hh' _]]]].
           rewrite (Hb1 t c (or_introl eq_refl)) in Hh'; [discriminate|].
           rewrite Hc'. apply in_or_app. right. left. reflexivity.
    + rewrite IHn, find_col_none in *. split.
      * intros H t' h [<-|Ht] Hh; [apply E; exact Hh|apply H; assumption].
      * intros H t' h Ht Hh. apply H; [right; exact Ht|exact Hh].
    + intros h. rewrite IHs. split.
      * intros [ts1 [t' [ts2 [cols1 [cols2 [Hts [Hc [Hh [Hb1 Hb2]]]]]]]]].
        exists (t :: ts1), t', ts2, cols1, cols2. rewrite Hts.
        repeat split; auto.
        intros t'' h' [<-|Ht] Hh';
          [exact (proj1 (find_col_none cols t) E h' Hh')|].
        apply Hb1; assumption.
      * intros [[|t1 ts1] [t' [ts2 [cols1 [cols2 [Hts [Hc [Hh [Hb1 Hb2]]]]]]]]].
        -- injection Hts as <- _.
           assert (Hs : find_col lower cols t = Some h)
             by (apply find_col_some; exists cols1, cols2; auto).
           congruence.
        -- injection Hts as <- Hts.
           exists ts1, t', ts2, cols1, cols2. repeat split; auto.
           intros t'' h' Ht Hh'. apply Hb1; [right; exact Ht|exact Hh'].
Qed.
End Resolve.

(* ------------------------------------------------------------------ *)
(** ** Component classifier *)

(** C3 (code bug): [classify_component] only maps a missing designator
    ([pd.isna]) to the 'unknown' label; an empty or blank designator text
    falls through every rule to 'other'. The other examples of the rule
    order hold. *)
Theorem classify_component_blank_designator_is_other :
  classify_component (CStr []) = Other /\
  classify_component (CStr (u " ")) = Other /\
  classify_component CNa = Unknown /\
  classify_component (CStr (u "R101")) = Resistor /\
  classify_component (CStr (u "J3")) = Connector /\
  classify_component (CStr (u "X9")) = Other.
Proof. vm_compute. repeat split. Qed.

(* ------------------------------------------------------------------ *)
(** ** Module names *)

(** A BOM sheet with one self-purchase row. *)
Definition bom_file (name : string) : src_file :=
  SrcFile (u name)
    (Some (fam_core bom_family,
           [[CStr (u "10k"); CStr (u "2"); CStr (u "R1"); CStr (u "C25744");
             CStr (u "1"); CStr (u "2"); CStr (u "https://item.taobao.com/2");
             CNa; CNa]])).

(** C4 (code bug): discovery matches the patterns with [re.IGNORECASE],
    but the module-name substitution passes [re.IGNORECASE] as the
    [count] argument of [re.sub], so it matches case-sensitively. A file
    discovered with a lower-case prefix or version tag keeps its whole file
    name as module name, and its records carry that name. The documented
    example works. *)
Theorem module_name_not_stripped_for_case_variants :
  module_name_of bom_pattern (u "BOM_PowerModule-v1.2.0.xlsx") = u "PowerModule" /\
  discovered bom_pattern (u "bom_PowerModule-v1.2.0.xlsx") = true /\
  module_name_of bom_pattern (u "bom_PowerModule-v1.2.0.xlsx")
    = u "bom_PowerModule-v1.2.0.xlsx" /\
  map sr_module (fst (extract_run to_numeric_int bom_family
                        [bom_file "bom_PowerModule-v1.2.0.xlsx"]))
    = [u "bom_PowerModule-v1.2.0.xlsx"] /\
  discovered modacc_pattern (u "ModAcc_MG811-v1.2.0.xlsx") = true /\
  module_name_of modacc_pattern (u "ModAcc_MG811-v1.2.0.xlsx")
    = u "ModAcc_MG811-v1.2.0.xlsx".
Proof. vm_compute. repeat split. Qed.

(* ------------------------------------------------------------------ *)
(** ** Files with missing mandatory columns *)

Lemma extract_run_app : forall tn fam fs1 fs2,
  extract_run tn fam (fs1 ++ fs2) =
  (fst (extract_run tn fam fs1) ++ fst (extract_run tn fam fs2),
   snd (extract_run tn fam fs1) ++ snd (extract_run tn fam fs2)).
Proof.
  intros tn fam fs1 fs2. induction fs1 as [|f fs1 IH]; simpl.
  - destruct (extract_run tn fam fs2); reflexivity.
  - destruct (if discovered (fam_pattern fam) (f_name f)
              then extract_file tn fam f else ([], [])) as [r1 d1].
    rewrite IH. destruct (extract_run tn fam fs1) as [r2 d2]. simpl.
    rewrite !app_assoc. reflexivity.
Qed.

Lemma missing_cols_In : forall fam hdrs c,
  In c (missing_cols fam hdrs) <-> In c (fam_core fam) /\ ~ In c (map strip hdrs).
Proof.
  intros fam hdrs c. unfold missing_cols, mem_ustr.
  rewrite filter_In, negb_true_iff.
  assert (H : existsb (ustr_eqb c) (map strip hdrs) = true <-> In c (map strip hdrs)).
  { rewrite existsb_exists. split.
    - intros [x [Hx Hc]]. apply ustr_eqb_eq in Hc. subst. exact Hx.
    - intros Hc. exists c. split; [exact Hc|apply ustr_eqb_eq; reflexivity]. }
  destruct (existsb (ustr_eqb c) (map strip hdrs)); split; intros [H1 H2];
    split; auto; try discriminate.
  - exfalso. apply H2, H. reflexivity.
  - intro Hin. apply H in Hin. discriminate.
Qed.

(** C6: a discovered file whose stripped headers lack some core column
    contributes no record: the run over [fs1 ++ f :: fs2] has exactly the
    records of [fs1] and [fs2], the diagnostic for [f] names the missing
    core columns, and the other files are processed as without [f]. *)
Theorem missing_core_column_skips_file :
  forall (to_numeric : ustr -> option Q) fam fs1 f fs2 hdrs rows,
  f_table f = Some (hdrs, rows) ->
  discovered (fam_pattern fam) (f_name f) = true ->
  missing_cols fam hdrs <> [] ->
  extract_run to_numeric fam (fs1 ++ f :: fs2) =
    (fst (extract_run to_numeric fam fs1) ++ fst (extract_run to_numeric fam fs2),
     snd (extract_run to_numeric fam fs1) ++
       DMissing (f_name f) (missing_cols fam hdrs) ::
       snd (extract_run to_numeric fam fs2)) /\
  (forall c, In c (missing_cols fam hdrs) <->
             In c (fam_core fam) /\ ~ In c (map strip hdrs)).
Proof.
  intros tn fam fs1 f fs2 hdrs rows Ht Hd Hm. split; [|apply missing_cols_In].
  rewrite extract_run_app. simpl. rewrite Hd.
  unfold extract_file. rewrite Ht.
  destruct (missing_cols fam hdrs) as [|c m] eqn:E; [contradiction|].
  destruct (extract_run tn fam fs2) as [r2 d2]. reflexivity.
Qed.

(** A BOM sheet without its [Value] column. *)
Definition bom_file_no_value : src_file :=
  SrcFile (u "BOM_Sensor-v1.0.xlsx")
    (Some (filter (fun c => negb (ustr_eqb c (u "Value"))) (fam_core bom_family),
           [[CStr (u "10k"); CStr (u "2"); CStr (u "R1"); CStr (u "C25744");
             CStr (u "1"); CStr (u "https://item.taobao.com/2"); CNa; CNa]])).

Lemma missing_core_column_skips_file_witness :
  let hdrs := filter (fun c => negb (ustr_eqb c (u "Value"))) (fam_core bom_family) in
  let rows := [[CStr (u "10k"); CStr (u "2"); CStr (u "R1"); CStr (u "C25744");
                CStr (u "1"); CStr (u "https://item.taobao.com/2"); CNa; CNa]] in
  f_table bom_file_no_value = Some (hdrs, rows) /\
  discovered (fam_pattern bom_family) (f_name bom_file_no_value) = true /\
  missing_cols bom_family hdrs = [u "Value"] /\
  extract_run to_numeric_int bom_family
    ([bom_file "BOM_Power-v2.0.xlsx"] ++ bom_file_no_value :: []) =
    (fst (extract_run to_numeric_int bom_family [bom_file "BOM_Power-v2.0.xlsx"]) ++
       fst (extract_run to_numeric_int bom_family []),
     snd (extract_run to_numeric_int bom_family [bom_file "BOM_Power-v2.0.xlsx"]) ++
       DMissing (f_name bom_file_no_value) (missing_cols bom_family hdrs) ::
       snd (extract_run to_numeric_int bom_family [])).
Proof.
  intros hdrs rows.
  assert (Ht : f_table bom_file_no_value = Some (hdrs, rows)) by reflexivity.
  assert (Hd : discovered (fam_pattern bom_family) (f_name bom_file_no_value) = true)
    by (vm_compute; reflexivity).
  assert (Hm : missing_cols bom_family hdrs = [u "Value"])
    by (vm_compute; reflexivity).
  split; [exact Ht|]. split; [exact Hd|]. split; [exact Hm|].
  apply (proj1 (missing_core_column_skips_file to_numeric_int bom_family
           [bom_file "BOM_Power-v2.0.xlsx"] bom_file_no_value [] hdrs rows
           Ht Hd ltac:(rewrite Hm; discriminate))).
Defined.

(* ------------------------------------------------------------------ *)
(** ** The BOM grand total *)

Section BomTotal.
Local Open Scope Q_scope.

Lemma Qsum_app : forall l1 l2, Qsum (l1 ++ l2) == Qsum l1 + Qsum l2.
Proof.
induction l1 as [|x l1 IH]; intros l2; simpl; [ring|].
rewrite IH. ring.
Qed.

Lemma Qsum_perm : forall l1 l2, Permutation l1 l2 -> Qsum l1 == Qsum l2.
Proof.
intros l1 l2 H. induction H; simpl.
- reflexivity.
- rewrite IHPermutation. reflexivity.
- ring.
- rewrite IHPermutation1. exact IHPermutation2.
Qed.

Lemma Qsum_map_plus : forall {A} (f g : A -> Q) (l : list A),
Qsum (map (fun x => f x + g x) l) == Qsum (map f l) + Qsum (map g l).
Proof.
intros A f g. induction l as [|x l IH]; simpl; [ring|].
rewrite IH. ring.
Qed.

Lemma Qsum_map_ext : forall {A} (f g : A -> Q) (l : list A),
(forall x, In x l -> f x == g x) -> Qsum (map f l) == Qsum (map g l).
Proof.
intros A f g. induction l as [|x l IH]; intros H; simpl; [reflexivity|].
rewrite (H x (or_introl eq_refl)), IH; [reflexivity|].
intros y Hy. apply H. right. exact Hy.
Qed.

Lemma insert_sorted_perm : forall {A} (ltb : A -> A -> bool) x l,
Permutation (insert_sorted ltb x l) (x :: l).
Proof.
intros A ltb x. induction l as [|y l IH]; simpl; [reflexivity|].
destruct (ltb y x); [|reflexivity].
eapply perm_trans; [apply perm_skip; exact IH|apply perm_swap].
Qed.

Lemma sort_values_perm : forall {A} (ltb : A -> A -> bool) l,
Permutation (sort_values ltb l) l.
Proof.
intros A ltb. induction l as [|x l IH]; simpl; [reflexivity|].
eapply perm_trans; [apply insert_sorted_perm|apply perm_skip; exact IH].
Qed.

(** The sum of the per-module sums over a list of distinct modules that
  covers every record is the sum over all records. *)
Lemma sum_over_modules : forall (l : list srec) (ks : list ustr),
NoDup ks -> (forall r, In r l -> In (sr_module r) ks) ->
Qsum (map (fun m => Qsum (map rec_value
            (filter (fun r => ustr_eqb (sr_module r) m) l))) ks)
== Qsum (map rec_value l).
Proof.
induction l as [|r l IH]; intros ks Hn Hc; simpl.
- clear Hc Hn. induction ks as [|k ks IHk]; simpl; [reflexivity|].
  rewrite IHk. ring.
- rewrite (Qsum_map_ext _ (fun m => (if ustr_eqb (sr_module r) m
                                     then rec_value r else 0)
      + Qsum (map rec_value (filter (fun r0 => ustr_eqb (sr_module r0) m) l)))).
  2:{ intros m _. destruct (ustr_eqb (sr_module r) m); simpl; ring. }
  rewrite Qsum_map_plus, IH; [|exact Hn|intros x Hx; apply Hc; right; exact Hx].
  apply Qplus_inj_r.
  assert (Hin : In (sr_module r) ks) by (apply Hc; left; reflexivity).
  clear Hc IH. induction ks as [|k ks IHk]; [contradiction|].
  inversion Hn as [|? ? Hk Hn']; subst. simpl.
  destruct (ustr_eqb (sr_module r) k) eqn:E.
  + apply ustr_eqb_eq in E. subst k.
    assert (Z0 : Qsum (map (fun m => if ustr_eqb (sr_module r) m
                                     then rec_value r else 0) ks) == 0).
    { clear IHk Hn Hn' Hin. induction ks as [|k ks IHz]; simpl; [reflexivity|].
      destruct (ustr_eqb (sr_module r) k) eqn:E.
      - apply ustr_eqb_eq in E. subst k. exfalso. apply Hk. left. reflexivity.
      - rewrite IHz; [ring|]. intro H. apply Hk. right. exact H. }
    rewrite Z0. ring.
  + destruct Hin as [Hin|Hin].
    * subst k. rewrite (proj2 (ustr_eqb_eq _ _) eq_refl) in E. discriminate.
    * rewrite IHk; [ring|exact Hn'|exact Hin].
Qed.

Lemma lookup_total_groupby : forall (all : list srec) (ks : list ustr) m,
In m ks ->
lookup_total (map (fun k => (k, Qsum (map rec_value
                (filter (fun r => ustr_eqb (sr_module r) k) all)))) ks) m
= Qsum (map rec_value (filter (fun r => ustr_eqb (sr_module r) m) all)).
Proof.
intros all ks m. induction ks as [|k ks IH]; simpl; [contradiction|].
intros [<-|Hin].
- rewrite (proj2 (ustr_eqb_eq _ _) eq_refl). reflexivity.
- destruct (ustr_eqb k m) eqn:E; [apply ustr_eqb_eq in E; subst k; reflexivity|].
  apply IH. exact Hin.
Qed.

(** In [extract_and_format_bom], the grand total (each module's total
  taken once) equals the sum of the [Value] of all records. *)
Lemma bom_grand_total_sum : forall recs : list srec,
bom_grand_total recs == Qsum (map rec_value recs).
Proof.
intros recs. unfold bom_grand_total, bom_module_table, merge_totals, groupby_sum.
set (all := sort_values bom_lt recs).
unfold drop_duplicates. rewrite drop_dup_from_map, map_map. simpl.
set (D := drop_dup_from (fun a : srec => sr_module a) ustr_eq_dec [] all).
assert (HK : drop_dup_from (fun m => m) ustr_eq_dec [] (map sr_module all)
             = map sr_module D)
  by (unfold D; exact (drop_dup_from_map (fun m => m) ustr_eq_dec sr_module all [])).
rewrite HK.
rewrite (Qsum_map_ext _ (fun r => Qsum (map rec_value
           (filter (fun r0 => ustr_eqb (sr_module r0) (sr_module r)) all)))).
2:{ intros r Hr. rewrite lookup_total_groupby; [reflexivity|].
    apply in_map. exact Hr. }
rewrite <- (map_map sr_module (fun m => Qsum (map rec_value
           (filter (fun r0 => ustr_eqb (sr_module r0) m) all)))).
rewrite sum_over_modules.
- apply Qsum_perm, Permutation_map, sort_values_perm.
- apply (drop_dup_from_keys sr_module ustr_eq_dec all []).
- intros r Hr. destruct (drop_dup_from_cover sr_module ustr_eq_dec all [] r Hr)
    as [[]|H]. exact H.
Qed.
End BomTotal.

(* ------------------------------------------------------------------ *)
(** ** Module blocks of the first report *)

Section Blocks.

Lemma repeat_S_app : forall {A} (x : A) n, repeat x (S n) = repeat x n ++ [x].
Proof.
  intros A x n. induction n as [|n IH]; [reflexivity|].
  change (x :: repeat x (S n) = x :: repeat x n ++ [x]). rewrite IH. reflexivity.
Qed.

Lemma ranges_loop_runs : forall rest cur start row, (start < row)%nat ->
  exists runs,
    expand_runs runs = repeat cur (row - start) ++ rest /\ runs_ok runs /\
    (exists n t, runs = (cur, n) :: t) /\
    ranges_loop cur start row rest = ranges_of start runs.
Proof.
  induction rest as [|v rest IH]; intros cur start row Hlt.
  - exists [(cur, (row - start)%nat)]. unfold expand_runs. simpl.
    rewrite !app_nil_r. repeat split; [lia|eauto|].
    f_equal. f_equal. lia.
  - simpl. destruct (ustr_eqb v cur) eqn:E; simpl.
    + apply ustr_eqb_eq in E. subst v.
      destruct (IH cur start (S row)) as [runs [He [Hok [Hh Hr]]]]; [lia|].
      exists runs. repeat split; auto.
      rewrite He. replace (S row - start)%nat with (S (row - start)) by lia.
      rewrite repeat_S_app, <- app_assoc. reflexivity.
    + destruct (IH v row (S row)) as [runs [He [Hok [[n [t Hh]] Hr]]]]; [lia|].
      exists ((cur, (row - start)%nat) :: runs). unfold expand_runs in *. simpl.
      rewrite He. replace (S row - row)%nat with 1%nat by lia. simpl.
      split; [reflexivity|]. split; [split; [lia|split]|split].
      * rewrite Hh. intro Heq. subst v. rewrite (proj2 (ustr_eqb_eq _ _) eq_refl) in E.
        discriminate.
      * exact Hok.
      * eauto.
      * rewrite Hr. replace (start + (row - start))%nat with row by lia.
        reflexivity.
Qed.

Lemma module_ranges_decompose : forall vals : list ustr,
  exists runs,
    expand_runs runs = vals /\ runs_ok runs /\
    module_ranges vals = ranges_of 2 runs.
Proof.
  intros [|v rest].
  - exists []. repeat split.
  - destruct (ranges_loop_runs rest v 2 3) as [runs [He [Hok [_ Hr]]]]; [lia|].
    exists runs. repeat split; auto.
Qed.

(** X1: the merge loop cuts the data rows (2..max_row) into blocks of
    consecutive rows: column A is the concatenation of non-empty runs of
    one module name each, neighbouring runs have different names, and the
    merged ranges are exactly the row spans of these runs, starting at
    row 2 and following each other without gap. *)
Theorem module_ranges_are_runs : forall vals : list ustr,
  exists runs,
    expand_runs runs = vals /\ runs_ok runs /\
    module_ranges vals = ranges_of 2 runs.
Proof.
  intros [|v rest].
  - exists []. repeat split.
  - destruct (ranges_loop_runs rest v 2 3) as [runs [He [Hok [_ Hr]]]]; [lia|].
    exists runs. repeat split; auto.
Qed.







End Blocks.



(* ------------------------------------------------------------------ *)
(** ** Sorting by module *)

Lemma ustr_ltb_irrefl : forall a, ustr_ltb a a = false.
Proof.
  induction a as [|x a IH]; simpl; [reflexivity|].
  rewrite Z.ltb_irrefl, Z.eqb_refl, IH. reflexivity.
Qed.

Lemma ustr_ltb_trans : forall a b c,
  ustr_ltb a b = true -> ustr_ltb b c = true -> ustr_ltb a c = true.
Proof.
  induction a as [|x a IH]; intros [|y b] [|z c]; simpl; try discriminate; auto.
  rewrite !orb_true_iff, !andb_true_iff, !Z.ltb_lt, !Z.eqb_eq.
  intros [H1|[H1 H1']] [H2|[H2 H2']].
  - left. lia.
  - left. lia.
  - left. lia.
  - right. split; [lia|]. eapply IH; eauto.
Qed.

Lemma ustr_ltb_asym : forall a b, ustr_ltb a b = true -> ustr_ltb b a = false.
Proof.
  intros a b H. destruct (ustr_ltb b a) eqn:E; [|reflexivity].
  pose proof (ustr_ltb_trans a b a H E) as Haa.
  rewrite ustr_ltb_irrefl in Haa. discriminate.
Qed.

Lemma ustr_ltb_total : forall a b, a <> b ->
  ustr_ltb a b = true \/ ustr_ltb b a = true.
Proof.
  induction a as [|x a IH]; intros [|y b] Hne; simpl; auto.
  rewrite !orb_true_iff, !andb_true_iff, !Z.ltb_lt, !Z.eqb_eq.
  destruct (Z.lt_trichotomy x y) as [H|[H|H]]; [left; left; exact H| |right; left; exact H].
  subst y. assert (a <> b) as Hab by congruence.
  destruct (IH b Hab); [left|right]; right; auto.
Qed.

Section SortedBy.
Context {A : Type} (ltb : A -> A -> bool).
Hypothesis ltb_asym : forall x y, ltb x y = true -> ltb y x = false.

(** [le x y]: [y] does not sort before [x]. *)
Definition not_before (x y : A) : Prop := ltb y x = false.

Lemma insert_sorted_sorted : forall x l,
  Sorted not_before l -> Sorted not_before (insert_sorted ltb x l).
Proof.
  intros x l. induction l as [|y l IH]; intros Hs; simpl.
  - constructor; constructor.
  - destruct (ltb y x) eqn:E.
    + apply Sorted_inv in Hs as [Hl Hh]. constructor; [apply IH; exact Hl|].
      destruct l as [|z l']; simpl.
      * constructor. unfold not_before. apply ltb_asym. exact E.
      * destruct (ltb z x); constructor;
          [inversion Hh; assumption|unfold not_before; apply ltb_asym; exact E].
    + constructor; [exact Hs|]. constructor. exact E.
Qed.

Lemma sort_values_sorted : forall l, Sorted not_before (sort_values ltb l).
Proof.
  induction l as [|x l IH]; simpl; [constructor|].
  apply insert_sorted_sorted. exact IH.
Qed.

End SortedBy.

Lemma Sorted_map_weaken : forall {A B} (R : A -> A -> Prop) (S : B -> B -> Prop)
  (f : A -> B), (forall x y, R x y -> S (f x) (f y)) ->
  forall l, Sorted R l -> Sorted S (map f l).
Proof.
  intros A B R S f HRS l. induction 1 as [|x l Hs IH Hh]; simpl; constructor; auto.
  destruct Hh; simpl; constructor. apply HRS. assumption.
Qed.

Lemma Sorted_app_r : forall {A} (R : A -> A -> Prop) l1 l2,
  Sorted R (l1 ++ l2) -> Sorted R l2.
Proof.
  intros A R l1 l2. induction l1 as [|x l1 IH]; simpl; auto.
  intros H. apply Sorted_inv in H. apply IH, H.
Qed.

Lemma Sorted_adjacent : forall {A} (R : A -> A -> Prop) l1 a b l2,
  Sorted R (l1 ++ a :: b :: l2) -> R a b.
Proof.
  intros A R l1 a b l2 H. apply Sorted_app_r in H.
  apply Sorted_inv in H as [_ H]. inversion H. assumption.
Qed.

Definition module_le (m1 m2 : ustr) : Prop := ustr_ltb m2 m1 = false.
Definition module_lt (m1 m2 : ustr) : Prop := ustr_ltb m1 m2 = true.

Lemma runs_sorted_strict : forall runs,
  runs_ok runs -> Sorted module_le (expand_runs runs) ->
  Sorted module_lt (map fst runs).
Proof.
  induction runs as [|[v n] t IH]; intros Hok Hs; simpl; [constructor|].
  destruct Hok as [Hn [Hnb Hok]].
  change (expand_runs ((v, n) :: t)) with (repeat v n ++ expand_runs t) in Hs.
  constructor.
  - apply IH; [exact Hok|]. eapply Sorted_app_r. exact Hs.
  - destruct t as [|[w m] t']; simpl; constructor.
    destruct Hok as [Hm _].
    change (expand_runs ((w, m) :: t')) with (repeat w m ++ expand_runs t') in Hs.
    destruct n as [|n]; [lia|]. destruct m as [|m]; [lia|].
    rewrite repeat_S_app, <- app_assoc in Hs. simpl in Hs.
    apply Sorted_adjacent in Hs. unfold module_le in Hs. unfold module_lt.
    destruct (ustr_ltb_total v w Hnb) as [H|H]; [exact H|congruence].
Qed.

Lemma module_lt_nodup : forall l, Sorted module_lt l -> NoDup l.
Proof.
  intros l Hs.
  assert (Hss : StronglySorted module_lt l).
  { apply Sorted_StronglySorted; [|exact Hs].
    intros a b c H1 H2. exact (ustr_ltb_trans a b c H1 H2). }
  clear Hs. induction Hss as [|x l Hss IH Hall]; constructor; auto.
  intros Hin. rewrite Forall_forall in Hall. specialize (Hall x Hin).
  unfold module_lt in Hall. rewrite ustr_ltb_irrefl in Hall. discriminate.
Qed.

Lemma sorted_modules_one_block : forall vals,
  Sorted module_le vals ->
  exists runs,
    expand_runs runs = vals /\ runs_ok runs /\ NoDup (map fst runs) /\
    module_ranges vals = ranges_of 2 runs.
Proof.
  intros vals Hs.
  destruct (module_ranges_decompose vals) as [runs [He [Hok Hr]]].
  exists runs. repeat split; auto.
  apply module_lt_nodup, runs_sorted_strict; [exact Hok|]. rewrite He. exact Hs.
Qed.

Lemma merge_totals_modules : forall all mt,
  map (fun p => sr_module (fst p)) (merge_totals all mt) = map sr_module all.
Proof.
  intros all mt. unfold merge_totals. rewrite map_map. reflexivity.
Qed.

Lemma modacc_lt_asym : forall x y, modacc_lt x y = true -> modacc_lt y x = false.
Proof.
  intros x y. unfold modacc_lt.
  remember (lookup_val (u "No.") (sr_cells x)) as nx eqn:Ex.
  remember (lookup_val (u "No.") (sr_cells y)) as ny eqn:Ey.
  clear Ex Ey.
  destruct (ustr_ltb (sr_module x) (sr_module y)) eqn:E1.
  - intros _. rewrite (ustr_ltb_asym _ _ E1). simpl.
    destruct (ustr_eqb (sr_module y) (sr_module x)) eqn:E2; [|reflexivity].
    apply ustr_eqb_eq in E2. rewrite E2, ustr_ltb_irrefl in E1. discriminate.
  - simpl. intros H. apply andb_true_iff in H as [E2 H].
    apply ustr_eqb_eq in E2. rewrite E2, ustr_ltb_irrefl. simpl.
    rewrite (proj2 (ustr_eqb_eq _ _) eq_refl). simpl.
    destruct nx as [|a|]; destruct ny as [|b|]; try discriminate; try reflexivity.
    apply ustr_ltb_asym. exact H.
Qed.

(** X3: in the first BOM report (sorted by module) the rows of one module
    are consecutive: the merged ranges of column A are one per module,
    and no module name heads two ranges. *)
Theorem bom_module_one_block_each : forall recs : list srec,
  let vals := map (fun p => sr_module (fst p)) (bom_module_table recs) in
  exists runs,
    expand_runs runs = vals /\ runs_ok runs /\ NoDup (map fst runs) /\
    module_ranges vals = ranges_of 2 runs.
Proof.
  intros recs vals. apply sorted_modules_one_block.
  subst vals. unfold bom_module_table. rewrite merge_totals_modules.
  apply (Sorted_map_weaken (not_before bom_lt)).
  - intros x y H. exact H.
  - apply sort_values_sorted. intros x y. apply ustr_ltb_asym.
Qed.

(** X4: the same for the ModAcc report, sorted by module and then by
    [No.]: each module occupies one merged range of column A. *)
Theorem modacc_module_one_block_each : forall recs : list srec,
  let vals := map (fun p => sr_module (fst p)) (modacc_module_table recs) in
  exists runs,
    expand_runs runs = vals /\ runs_ok runs /\ NoDup (map fst runs) /\
    module_ranges vals = ranges_of 2 runs.
Proof.
  intros recs vals. apply sorted_modules_one_block.
  subst vals. unfold modacc_module_table. rewrite merge_totals_modules.
  apply (Sorted_map_weaken (not_before modacc_lt)).
  - intros x y H. unfold not_before, modacc_lt in H. unfold module_le.
    apply orb_false_iff in H. apply H.
  - apply sort_values_sorted. exact modacc_lt_asym.
Qed.

(* ------------------------------------------------------------------ *)
(** ** Module totals column *)

Lemma filter_perm : forall {A} (f : A -> bool) l1 l2,
  Permutation l1 l2 -> Permutation (filter f l1) (filter f l2).
Proof.
  intros A f l1 l2 H. induction H; simpl.
  - constructor.
  - destruct (f x); [apply perm_skip|]; exact IHPermutation.
  - destruct (f x); destruct (f y); try constructor; reflexivity.
  - eapply perm_trans; eassumption.
Qed.

Lemma merge_totals_groupby_row : forall (all : list srec) r q,
  In (r, q) (merge_totals all (groupby_sum all)) ->
  In r all /\
  q = Qsum (map rec_value (filter (fun r' => ustr_eqb (sr_module r') (sr_module r)) all)).
Proof.
  intros all r q Hin. unfold merge_totals in Hin.
  apply in_map_iff in Hin as [r' [Heq Hr']]. injection Heq as <- <-.
  split; [exact Hr'|]. unfold groupby_sum. apply lookup_total_groupby.
  destruct (drop_dup_from_cover (fun m : ustr => m) ustr_eq_dec (map sr_module all) []
              (sr_module r') (in_map _ _ _ Hr')) as [H|H]; [destruct H|].
  rewrite map_id in H. exact H.
Qed.

(** X5: every row of either module table carries, in its module total
    column, the sum of [Value] over all extracted rows of its module. *)
Theorem module_total_column_is_module_sum : forall (recs : list srec) r q,
  (In (r, q) (bom_module_table recs) \/ In (r, q) (modacc_module_table recs)) ->
  In r recs /\
  (q == Qsum (map rec_value
                (filter (fun r' => ustr_eqb (sr_module r') (sr_module r)) recs)))%Q.
Proof.
  intros recs r q Hin.
  assert (Hgen : forall ltb, In (r, q) (merge_totals (sort_values ltb recs)
                                          (groupby_sum (sort_values ltb recs))) ->
            In r recs /\
            (q == Qsum (map rec_value
                (filter (fun r' => ustr_eqb (sr_module r') (sr_module r)) recs)))%Q).
  { intros ltb H. apply merge_totals_groupby_row in H as [Hr ->]. split.
    - eapply Permutation_in; [apply sort_values_perm|exact Hr].
    - apply Qsum_perm, Permutation_map, filter_perm, sort_values_perm. }
  destruct Hin as [H|H]; eapply Hgen; exact H.
Qed.

Lemma module_total_column_is_module_sum_witness :
  let recs := [SRec (u "A") [(u "Value", VNum 2)]; SRec (u "B") [(u "Value", VNum 3)];
               SRec (u "A") [(u "Value", VNum 4)]] in
  In (SRec (u "A") [(u "Value", VNum 2)], 6%Q) (bom_module_table recs) /\
  In (SRec (u "A") [(u "Value", VNum 2)]) recs /\
  (6 == Qsum (map rec_value
     (filter (fun r' => ustr_eqb (sr_module r') (sr_module (SRec (u "A") [(u "Value", VNum 2)]))) recs)))%Q.
Proof.
  intros recs.
  assert (H : In (SRec (u "A") [(u "Value", VNum 2)], 6%Q) (bom_module_table recs))
    by (vm_compute; tauto).
  split; [exact H|]. apply (module_total_column_is_module_sum recs). left. exact H.
Defined.

(* ------------------------------------------------------------------ *)
(** ** The two purchase classifiers *)

Lemma clean_cell_blank : forall c,
  is_none (clean_invalid_content c) =
  negb (match c with CNa => false | CStr s => negb (is_none (head (strip s))) end).
Proof.
  intros [|s]; [reflexivity|].
  destruct (strip s) as [|x t] eqn:E.
  - rewrite (proj2 (clean_invalid_content_none s) E). reflexivity.
  - destruct (clean_invalid_content (CStr s)) eqn:C; [reflexivity|].
    apply clean_invalid_content_none in C. congruence.
Qed.

(** X6: when the three indicator columns of a table resolve to the exact
    headers 淘宝链接, 下单配置 and 最小起订量, the row test of
    [judge_non_self_purchase] is the negation of the row test the two
    extraction scripts use: every row is either self-purchased (kept by
    the extraction) or non-self-purchased (kept by the classifier), never
    both and never neither. *)
Theorem indicator_tests_complementary : forall (cols : list ustr) (r : row),
  match_column_name cols taobao_link_variants = Some taobao_hdr ->
  match_column_name cols order_config_variants = Some order_hdr ->
  match_column_name cols min_order_variants = Some min_order_hdr ->
  non_self_purchase_row cols r = negb (self_purchase_row r).
Proof.
  intros cols r Ht Ho Hm. unfold non_self_purchase_row.
  rewrite Ht, Ho, Hm. unfold clean_field, self_purchase_row, filter_columns.
  simpl existsb. rewrite !clean_cell_blank.
  destruct (match get taobao_hdr r with
            | CNa => false | CStr s => negb (is_none (head (strip s))) end);
  destruct (match get order_hdr r with
            | CNa => false | CStr s => negb (is_none (head (strip s))) end);
  destruct (match get min_order_hdr r with
            | CNa => false | CStr s => negb (is_none (head (strip s))) end);
  reflexivity.
Qed.

Lemma indicator_tests_complementary_witness :
  let cols := fam_core bom_family in
  let r := combine cols [CStr (u "C25804"); CStr (u "10"); CStr (u "R1,R2");
                         CStr (u "C25804"); CStr (u "0.01"); CStr (u "10k");
                         CStr (u "  "); CNa; CStr (u " 5 ")] in
  match_column_name cols taobao_link_variants = Some taobao_hdr /\
  match_column_name cols order_config_variants = Some order_hdr /\
  match_column_name cols min_order_variants = Some min_order_hdr /\
  non_self_purchase_row cols r = negb (self_purchase_row r).
Proof.
  intros cols r.
  assert (Ht : match_column_name cols taobao_link_variants = Some taobao_hdr)
    by (vm_compute; reflexivity).
  assert (Ho : match_column_name cols order_config_variants = Some order_hdr)
    by (vm_compute; reflexivity).
  assert (Hm : match_column_name cols min_order_variants = Some min_order_hdr)
    by (vm_compute; reflexivity).
  split; [exact Ht|]. split; [exact Ho|]. split; [exact Hm|].
  exact (indicator_tests_complementary cols r Ht Ho Hm).
Defined.

(* ------------------------------------------------------------------ *)
(** ** What the extraction keeps *)

Lemma extract_file_records : forall to_numeric fam f rec,
  In rec (fst (extract_file to_numeric fam f)) ->
  exists r, self_purchase_row r = true /\
    rec = to_record to_numeric fam (module_name_of (fam_pattern fam) (f_name f)) r.
Proof.
  intros tn fam f rec. unfold extract_file.
  destruct (f_table f) as [[hdrs rows]|]; simpl; [|tauto].
  destruct (missing_cols fam hdrs); simpl; [|tauto].
  destruct (filter self_purchase_row (map (combine (map strip hdrs)) rows)) as [|x l] eqn:F;
    [simpl; tauto|].
  set (g := to_record tn fam (module_name_of (fam_pattern fam) (f_name f))).
  intros Hin. change (In rec (map g (x :: l))) in Hin. rewrite <- F in Hin. apply in_map_iff in Hin as [r [<- Hr]].
  apply filter_In in Hr. exists r. split; [apply Hr|reflexivity].
Qed.

Lemma extract_run_records : forall to_numeric fam files rec,
  In rec (fst (extract_run to_numeric fam files)) ->
  exists f, In f files /\ discovered (fam_pattern fam) (f_name f) = true /\
    In rec (fst (extract_file to_numeric fam f)).
Proof.
  intros tn fam. induction files as [|f fs IH]; intros rec; simpl; [tauto|].
  destruct (discovered (fam_pattern fam) (f_name f)) eqn:D.
  - destruct (extract_file tn fam f) as [r1 d1] eqn:E1.
    destruct (extract_run tn fam fs) as [r2 d2] eqn:E2. simpl.
    intros Hin. apply in_app_or in Hin as [H|H].
    + exists f. rewrite E1. auto.
    + destruct (IH rec) as [g [Hg Hrest]]; [exact H|]. eauto.
  - destruct (extract_run tn fam fs) as [r2 d2] eqn:E2. simpl.
    intros Hin. destruct (IH rec) as [g [Hg Hrest]]; [exact Hin|]. eauto.
Qed.

Lemma to_record_indicator : forall to_numeric fam m r c,
  (fam = bom_family \/ fam = modacc_family) -> In c filter_columns ->
  lookup_val c (sr_cells (to_record to_numeric fam m r)) = cell_val (get c r).
Proof.
  intros tn fam m r c Hfam Hc.
  destruct Hfam as [->| ->]; simpl in Hc;
    destruct Hc as [<-|[<-|[<-|[]]]]; reflexivity.
Qed.

(** X7: every record either extraction script collects comes from a
    discovered file, carries the module name taken from that file's name,
    has exactly the family's core columns, and has at least one of the
    three indicator columns holding text that is not blank after
    stripping: only self-purchased rows are collected. *)
Theorem extracted_records_are_self_purchased :
  forall (to_numeric : ustr -> option Q) fam files rec,
  (fam = bom_family \/ fam = modacc_family) ->
  In rec (fst (extract_run to_numeric fam files)) ->
  (exists f, In f files /\ discovered (fam_pattern fam) (f_name f) = true /\
     sr_module rec = module_name_of (fam_pattern fam) (f_name f)) /\
  map fst (sr_cells rec) = fam_core fam /\
  exists c s, In c filter_columns /\ lookup_val c (sr_cells rec) = VStr s /\
    strip s <> [].
Proof.
  intros tn fam files rec Hfam Hin.
  destruct (extract_run_records tn fam files rec Hin) as [f [Hf [Hd Hr]]].
  destruct (extract_file_records tn fam f rec Hr) as [r [Hs ->]].
  split; [exists f; auto|]. split.
  - unfold to_record. simpl. rewrite map_map. simpl. apply map_id.
  - unfold self_purchase_row in Hs. apply existsb_exists in Hs as [c [Hc Hv]].
    destruct (get c r) as [|s] eqn:G; [discriminate|].
    exists c, s. split; [exact Hc|]. split.
    + rewrite (to_record_indicator tn fam _ r c Hfam Hc), G. reflexivity.
    + intros E. rewrite E in Hv. discriminate.
Qed.

Lemma extracted_records_are_self_purchased_witness :
  let files := [SrcFile (u "BOM_Power-v1.0.xlsx")
                  (Some (fam_core bom_family,
                    [[CStr (u "10k"); CStr (u "2"); CStr (u "R1"); CStr (u "C25744");
                      CStr (u "1"); CStr (u "2"); CNa; CStr (u " 0402 "); CNa]]))] in
  let tn := to_numeric_int in
  (bom_family = bom_family \/ bom_family = modacc_family) /\
  exists rec, In rec (fst (extract_run tn bom_family files)) /\
  ((exists f, In f files /\ discovered (fam_pattern bom_family) (f_name f) = true /\
     sr_module rec = module_name_of (fam_pattern bom_family) (f_name f)) /\
   map fst (sr_cells rec) = fam_core bom_family /\
   exists c s, In c filter_columns /\ lookup_val c (sr_cells rec) = VStr s /\
     strip s <> []).
Proof.
  intros files tn. split; [left; reflexivity|].
  set (rec0 := hd (SRec [] []) (fst (extract_run tn bom_family files))).
  exists rec0. assert (Hin : In rec0 (fst (extract_run tn bom_family files)))
    by (vm_compute; left; reflexivity).
  split; [exact Hin|].
  exact (extracted_records_are_self_purchased tn bom_family files rec0
           (or_introl eq_refl) Hin).
Defined.

(* ------------------------------------------------------------------ *)
(** ** One BOM file of the non-self-purchase report *)

Lemma clean_category_label : forall c,
  clean_invalid_content (CStr (category_label c)) = Some (category_label c).
Proof. intros []; vm_compute; reflexivity. Qed.

Lemma process_bom_file_records : forall path t recs,
  process_bom_file path t = Some recs ->
  exists hdrs rows,
    t = Some (hdrs, rows) /\
    let cols := set_col_name (u "file_path") hdrs in
    let df := map (fun cs => set_col (u "file_path") (CStr path) (combine hdrs cs)) rows in
    judge_non_self_purchase cols df <> [] /\
    recs = map (fun r =>
      NRec (clean_invalid_content (CStr (nonself_module_name path)))
           (clean_invalid_content (get (resolve_or cols designator_variants (u "Designator")) r))
           (clean_invalid_content (get (resolve_or cols supplier_part_variants (u "Supplier Part")) r))
           (clean_invalid_content (CStr (category_label (classify_component
              (get (resolve_or cols designator_variants (u "Designator")) r)))))
           (clean_invalid_content (get (resolve_or cols manufacturer_part_variants
                                          (u "Manufacturer Part")) r))
           (clean_invalid_content (get (resolve_or cols manufacturer_variants
                                          (u "Manufacturer")) r)))
      (judge_non_self_purchase cols df).
Proof.
  intros path t recs. unfold process_bom_file.
  destruct t as [[hdrs rows]|]; [|discriminate].
  destruct (judge_non_self_purchase (set_col_name (u "file_path") hdrs)
             (map (fun cs => set_col (u "file_path") (CStr path) (combine hdrs cs)) rows))
    as [|x l] eqn:J; [discriminate|].
  intros H. injection H as <-. exists hdrs, rows. split; [reflexivity|].
  cbv zeta. rewrite J. split; [discriminate|reflexivity].
Qed.

(** X8: [process_bom_file] returns [None] rather than an empty frame, and
    every record it returns has its 元器件类型 set to one of the category
    labels (cleaning never blanks a label). *)
Theorem process_bom_file_types : forall path t recs,
  process_bom_file path t = Some recs ->
  recs <> [] /\
  forall rec, In rec recs -> exists c, nr_type rec = Some (category_label c).
Proof.
  intros path t recs H.
  destruct (process_bom_file_records path t recs H) as [hdrs [rows [_ [Hne ->]]]].
  split.
  - destruct (judge_non_self_purchase _ _); [contradiction|discriminate].
  - intros rec Hin. apply in_map_iff in Hin as [r [<- _]]. simpl.
    eexists. apply clean_category_label.
Qed.

Lemma get_not_header : forall c r, ~ In c (headers r) -> get c r = CNa.
Proof.
  intros c. induction r as [|[h v] r IH]; intros Hn; simpl; [reflexivity|].
  destruct (ustr_eqb h c) eqn:E.
  - apply ustr_eqb_eq in E. subst h. exfalso. apply Hn. left. reflexivity.
  - apply IH. intros H. apply Hn. right. exact H.
Qed.

Lemma headers_set_col : forall c v r h,
  In h (headers (set_col c v r)) -> h = c \/ In h (headers r).
Proof.
  intros c v r h. unfold set_col.
  destruct (existsb (ustr_eqb c) (headers r)).
  - unfold headers. rewrite map_map. intros Hin. apply in_map_iff in Hin as [[h' x] [<- Hx]].
    simpl. destruct (ustr_eqb h' c); simpl; right; apply (in_map fst _ (h', x)); exact Hx.
  - unfold headers. rewrite map_app. simpl. intros Hin. apply in_app_or in Hin as [H|[H|[]]].
    + right. exact H.
    + left. symmetry. exact H.
Qed.

Lemma headers_combine : forall (hdrs : list ustr) (cs : list cell) h,
  In h (headers (combine hdrs cs)) -> In h hdrs.
Proof.
  intros hdrs cs h Hin. unfold headers in Hin. apply in_map_iff in Hin as [[h' x] [<- Hx]].
  exact (in_combine_l _ _ _ _ Hx).
Qed.

Lemma set_col_name_incl : forall c cols h, In h cols -> In h (set_col_name c cols).
Proof.
  intros c cols h H. unfold set_col_name. destruct (existsb (ustr_eqb c) cols); [exact H|].
  apply in_or_app. left. exact H.
Qed.

Lemma frame_row_headers : forall path hdrs cs h,
  In h (headers (set_col (u "file_path") (CStr path) (combine hdrs cs))) ->
  In h (set_col_name (u "file_path") hdrs).
Proof.
  intros path hdrs cs h Hin. apply headers_set_col in Hin as [->|Hin].
  - unfold set_col_name. destruct (existsb (ustr_eqb (u "file_path")) hdrs) eqn:E.
    + apply existsb_exists in E as [x [Hx Ex]]. apply ustr_eqb_eq in Ex. subst x. exact Hx.
    + apply in_or_app. right. left. reflexivity.
  - apply set_col_name_incl. exact (headers_combine hdrs cs h Hin).
Qed.

Lemma match_column_name_none_first : forall lower cols t ts,
  match_column_name_with lower cols (t :: ts) = None -> find_col lower cols t = None.
Proof.
  intros lower cols t ts. simpl. destruct (find_col lower cols t); [discriminate|reflexivity].
Qed.

(** X9: when no column of a BOM resolves as the designator column (none
    contains "designator", 位号 or 元件位号), every record of that file has
    no designator, is typed 未知（无位号） and is special: it can only
    appear in the special-components sheet. *)
Theorem no_designator_column_all_special : forall path hdrs rows recs,
  match_column_name (set_col_name (u "file_path") hdrs) designator_variants = None ->
  process_bom_file path (Some (hdrs, rows)) = Some recs ->
  forall rec, In rec recs ->
    nr_designator rec = None /\ nr_type rec = Some (category_label Unknown) /\
    special_cond rec = true.
Proof.
  intros path hdrs0 rows0 recs Hnone H.
  destruct (process_bom_file_records path _ recs H) as [hdrs [rows [Ht [_ ->]]]].
  injection Ht as <- <-.
  intros rec Hin. apply in_map_iff in Hin as [r [<- Hr]].
  unfold resolve_or. rewrite Hnone.
  unfold judge_non_self_purchase in Hr. apply filter_In in Hr as [Hr _].
  apply in_map_iff in Hr as [cs [<- _]].
  rewrite get_not_header.
  - simpl. repeat split.
  - intros Hin. apply frame_row_headers in Hin.
    apply match_column_name_none_first in Hnone.
    rewrite (find_col_none py_lower) in Hnone.
    specialize (Hnone _ Hin). vm_compute in Hnone. discriminate.
Qed.

Lemma startswith_app : forall s p q, startswith s (p ++ q) = true -> startswith s p = true.
Proof.
  intros s p. revert s. induction p as [|x p IH]; intros [|y s] q; simpl; auto.
  rewrite !andb_true_iff. intros [H1 H2]. split; [exact H1|]. eapply IH. exact H2.
Qed.

Lemma contains_app : forall s p q, contains s (p ++ q) = true -> contains s p = true.
Proof.
  induction s as [|y s IH]; intros p q.
  - change (startswith [] (p ++ q) || false = true -> startswith [] p || false = true).
    rewrite !orb_false_r. apply startswith_app.
  - change (startswith (y :: s) (p ++ q) || contains s (p ++ q) = true ->
            startswith (y :: s) p || contains s p = true).
    rewrite !orb_true_iff. intros [H|H]; [left; eapply startswith_app; exact H|].
    right. eapply IH. exact H.
Qed.

Lemma find_col_first_hit : forall lower pre c post t,
  (forall h, In h pre -> hits lower h t = false) -> hits lower c t = true ->
  find_col lower (pre ++ c :: post) t = Some c.
Proof.
  intros lower pre c post t Hpre Hc. apply find_col_some.
  exists pre, post. auto.
Qed.

(** X10: in a BOM laid out as EasyEDA exports it, where the column
    "Manufacturer Part" comes before every other column whose lowercase
    name contains "manufacturer", the variant "manufacturer" resolves to
    "Manufacturer Part" as well: the Manufacturer field of every record
    repeats its Manufacturer Part. *)
Theorem manufacturer_reads_manufacturer_part : forall path pre post rows recs,
  forallb (fun h => negb (contains (py_lower h) (u "manufacturer"))) pre = true ->
  process_bom_file path (Some (pre ++ u "Manufacturer Part" :: post, rows)) = Some recs ->
  forall rec, In rec recs -> nr_manufacturer rec = nr_manufacturer_part rec.
Proof.
  intros path pre post rows0 recs Hpre H.
  destruct (process_bom_file_records path _ recs H) as [hdrs [rows [Ht [_ ->]]]].
  injection Ht as <- <-.
  assert (Hcols : exists rest, set_col_name (u "file_path") (pre ++ u "Manufacturer Part" :: post)
                               = pre ++ u "Manufacturer Part" :: rest).
  { unfold set_col_name. destruct (existsb _ _); [eauto|].
    rewrite <- app_assoc. simpl. eauto. }
  destruct Hcols as [rest Hcols].
  assert (Hno : forall h, In h pre -> hits py_lower h (u "manufacturer") = false).
  { intros h Hh. rewrite forallb_forall in Hpre. specialize (Hpre h Hh).
    apply negb_true_iff in Hpre. exact Hpre. }
  assert (E1 : resolve_or (pre ++ u "Manufacturer Part" :: rest) manufacturer_variants
                 (u "Manufacturer") = u "Manufacturer Part").
  { unfold resolve_or, match_column_name, manufacturer_variants. simpl match_column_name_with.
    rewrite find_col_first_hit; [reflexivity|exact Hno|reflexivity]. }
  assert (E2 : resolve_or (pre ++ u "Manufacturer Part" :: rest) manufacturer_part_variants
                 (u "Manufacturer Part") = u "Manufacturer Part").
  { unfold resolve_or, match_column_name, manufacturer_part_variants. simpl match_column_name_with.
    rewrite find_col_first_hit; [reflexivity| |reflexivity].
    intros h Hh. specialize (Hno h Hh). unfold hits in *.
    apply not_true_is_false. intros C.
    change (contains (py_lower h) (u "manufacturer" ++ u " part") = true) in C.
    apply contains_app in C.
    change (contains (py_lower h) (u "manufacturer") = false) in Hno. congruence. }
  assert (EQ : resolve_or (set_col_name (u "file_path") (pre ++ u "Manufacturer Part" :: post))
                 manufacturer_variants (u "Manufacturer") =
               resolve_or (set_col_name (u "file_path") (pre ++ u "Manufacturer Part" :: post))
                 manufacturer_part_variants (u "Manufacturer Part"))
    by (rewrite Hcols, E1, E2; reflexivity).
  intros rec Hin. apply in_map_iff in Hin as [r [<- _]]. simpl.
  f_equal. f_equal. exact EQ.
Qed.

Lemma nodup_map_filter : forall {A B} (f : A -> B) (p : A -> bool) l,
  NoDup (map f l) -> NoDup (map f (filter p l)).
Proof.
  intros A B f p. induction l as [|x l IH]; simpl; intros Hn; [constructor|].
  inversion Hn as [|? ? Hx Hn']; subst.
  destruct (p x); simpl; [|apply IH; exact Hn'].
  constructor; [|apply IH; exact Hn'].
  intros Hin. apply Hx. apply in_map_iff in Hin as [y [Hy Hyin]].
  rewrite <- Hy. apply in_map. apply filter_In in Hyin. apply Hyin.
Qed.

Lemma nodup_fill_na : forall (key : nrec -> option ustr) l,
  NoDup (map key l) -> (forall r, In r l -> key r <> None) ->
  NoDup (map (fun r => fill_na (key r)) l).
Proof.
  intros key. induction l as [|x l IH]; simpl; intros Hn Hs; [constructor|].
  inversion Hn as [|? ? Hx Hn']; subst.
  constructor; [|apply IH; auto].
  intros Hin. apply in_map_iff in Hin as [y [Hy Hyin]]. apply Hx.
  assert (Hky : key y = key x).
  { destruct (key y) eqn:Ey; [|exfalso; exact (Hs y (or_intror Hyin) Ey)].
    destruct (key x) eqn:Ex; [|exfalso; exact (Hs x (or_introl eq_refl) Ex)].
    simpl in Hy. subst. reflexivity. }
  rewrite <- Hky. apply in_map. exact Hyin.
Qed.

(** X11: in the regular-components sheet that [main] writes, the
    元器件编号 column (the Supplier Part) holds no value twice: the
    deduplication by Supplier Part and the move of every row without one
    to the special sheet leave one row per part number. *)
Theorem regular_part_numbers_distinct : forall files regular special,
  nonself_main files = Some (regular, special) ->
  (forall row, In row regular -> List.length row = 3%nat) /\
  NoDup (map (fun row => nth 2 row []) regular).
Proof.
  intros files regular special. unfold nonself_main.
  destruct (flat_map _ (find_bom_files files)) as [|x l]; [discriminate|].
  intros H.
  assert (HD : NoDup (map nr_supplier_part (deduplicate_components (x :: l))))
    by apply drop_dup_from_keys.
  revert H HD. generalize (deduplicate_components (x :: l)) as D. intros D H HD.
  unfold split_regular_special, split_rows in H. injection H as <- _.
  split.
  - intros row Hin. apply in_map_iff in Hin as [r [<- _]]. reflexivity.
  - rewrite map_map. simpl.
    apply (nodup_fill_na nr_supplier_part).
    + apply nodup_map_filter. exact HD.
    + intros r Hr E. apply filter_In in Hr as [_ Hr].
      unfold special_cond in Hr. rewrite E in Hr. simpl in Hr.
      rewrite orb_true_r in Hr. discriminate.
Qed.

Lemma process_bom_file_types_witness :
  process_bom_file (b_path easy_bom) (b_table easy_bom) = Some easy_recs /\
  easy_recs <> [] /\
  forall rec, In rec easy_recs -> exists c, nr_type rec = Some (category_label c).
Proof.
  assert (H : process_bom_file (b_path easy_bom) (b_table easy_bom) = Some easy_recs)
    by (vm_compute; reflexivity).
  split; [exact H|]. exact (process_bom_file_types _ _ _ H).
Defined.

Lemma no_designator_column_all_special_witness :
  let hdrs := [u "Name"; u "Quantity"; u "Supplier Part"] in
  let rows := [[CStr (u "10k"); CStr (u "2"); CStr (u "C25744")]] in
  let path := u "Sensor/BOM_Sensor-v1.0.xlsx" in
  let recs := match process_bom_file path (Some (hdrs, rows)) with
              | Some l => l | None => [] end in
  match_column_name (set_col_name (u "file_path") hdrs) designator_variants = None /\
  process_bom_file path (Some (hdrs, rows)) = Some recs /\
  recs <> [] /\
  forall rec, In rec recs ->
    nr_designator rec = None /\ nr_type rec = Some (category_label Unknown) /\
    special_cond rec = true.
Proof.
  intros hdrs rows path recs.
  assert (H1 : match_column_name (set_col_name (u "file_path") hdrs) designator_variants = None)
    by (vm_compute; reflexivity).
  assert (H2 : process_bom_file path (Some (hdrs, rows)) = Some recs)
    by (vm_compute; reflexivity).
  split; [exact H1|]. split; [exact H2|]. split; [vm_compute; discriminate|].
  exact (no_designator_column_all_special path hdrs rows recs H1 H2).
Defined.

Lemma manufacturer_reads_manufacturer_part_witness :
  forallb (fun h => negb (contains (py_lower h) (u "manufacturer"))) easy_pre = true /\
  process_bom_file (b_path easy_bom)
    (Some (easy_pre ++ u "Manufacturer Part" :: easy_post, easy_rows)) = Some easy_recs /\
  easy_recs <> [] /\
  forall rec, In rec easy_recs -> nr_manufacturer rec = nr_manufacturer_part rec.
Proof.
  assert (H1 : forallb (fun h => negb (contains (py_lower h) (u "manufacturer"))) easy_pre = true)
    by (vm_compute; reflexivity).
  assert (H2 : process_bom_file (b_path easy_bom)
                 (Some (easy_pre ++ u "Manufacturer Part" :: easy_post, easy_rows))
               = Some easy_recs) by (vm_compute; reflexivity).
  split; [exact H1|]. split; [exact H2|]. split; [vm_compute; discriminate|].
  exact (manufacturer_reads_manufacturer_part _ _ _ _ _ H1 H2).
Defined.

Lemma regular_part_numbers_distinct_witness :
  let out := match nonself_main [easy_bom] with Some p => p | None => ([], []) end in
  nonself_main [easy_bom] = Some (fst out, snd out) /\
  fst out <> [] /\
  (forall row, In row (fst out) -> List.length row = 3%nat) /\
  NoDup (map (fun row => nth 2 row []) (fst out)).
Proof.
  intros out.
  assert (H : nonself_main [easy_bom] = Some (fst out, snd out)) by (vm_compute; reflexivity).
  split; [exact H|]. split; [vm_compute; discriminate|].
  exact (regular_part_numbers_distinct _ _ _ H).
Defined.

(* ------------------------------------------------------------------ *)
(** ** Module names from file names *)

Lemma char_match_refl : forall ci a, char_match ci a a = true.
Proof. intros [|] a; unfold char_match; apply Z.eqb_refl. Qed.

Lemma lit_app : forall ci p s, lit ci p (p ++ s) = Some s.
Proof.
  intros ci. induction p as [|x p IH]; intros s; simpl; [reflexivity|].
  rewrite char_match_refl. apply IH.
Qed.

Lemma digit_run_app : forall d c rest,
  forallb is_digit d = true -> is_digit c = false ->
  digit_run (d ++ c :: rest) = (d, c :: rest).
Proof.
  induction d as [|x d IH]; intros c rest Hd Hc; simpl.
  - rewrite Hc. reflexivity.
  - simpl in Hd. apply andb_true_iff in Hd as [Hx Hd]. rewrite Hx, IH; auto.
Qed.

Lemma digits1_app : forall d c rest,
  digit_str d = true -> is_digit c = false ->
  digits1 (d ++ c :: rest) = Some (c :: rest).
Proof.
  intros d c rest Hd Hc. unfold digit_str in Hd.
  apply andb_true_iff in Hd as [Hne Hd].
  unfold digits1. rewrite digit_run_app by assumption.
  destruct d; [discriminate|reflexivity].
Qed.

Lemma ext_alt_own : forall ci p ext,
  (p = bom_pattern \/ p = modacc_pattern) -> In ext (np_exts p) ->
  ext_alt ci (np_exts p) ext = Some [] /\ digits1 ext = None /\
  Forall (fun c => c <> 45 /\ lower_char c <> 45) ext.
Proof.
  intros ci p ext [-> | ->] Hin; simpl in Hin;
    repeat (destruct Hin as [<-|Hin]; [destruct ci; vm_compute;
                                       repeat split; repeat constructor; discriminate|]);
    contradiction.
Qed.

Lemma digit_not_dash : forall d,
  forallb is_digit d = true -> Forall (fun c => c <> 45 /\ lower_char c <> 45) d.
Proof.
  intros d Hd. apply Forall_forall. intros c Hc.
  rewrite forallb_forall in Hd. specialize (Hd c Hc).
  unfold is_digit in Hd. apply andb_true_iff in Hd as [H1 H2].
  apply Z.leb_le in H1. apply Z.leb_le in H2.
  unfold lower_char. destruct ((65 <=? c) && (c <=? 90)) eqn:E.
  - apply andb_true_iff in E as [E1 E2]. apply Z.leb_le in E1. lia.
  - lia.
Qed.

Lemma digit_str_forallb : forall d, digit_str d = true -> forallb is_digit d = true.
Proof. intros d H. unfold digit_str in H. apply andb_true_iff in H. apply H. Qed.

Lemma lit_dot : forall ci s, lit ci [46] (46 :: s) = Some s.
Proof. intros ci s. simpl. rewrite char_match_refl. reflexivity. Qed.

Lemma tail_match_own : forall ci p d1 d2 d3 ext,
  (p = bom_pattern \/ p = modacc_pattern) -> In ext (np_exts p) ->
  digit_str d1 = true -> digit_str d2 = true ->
  (forall d, d3 = Some d -> digit_str d = true) ->
  tail_match ci p (45 :: np_vtag p :: d1 ++ 46 :: d2 ++
     (match d3 with Some d => 46 :: d | None => [] end ++ 46 :: ext)) = Some [].
Proof.
  intros ci p d1 d2 d3 ext Hp Hext H1 H2 H3.
  destruct (ext_alt_own ci p ext Hp Hext) as [Ha [Hd _]].
  unfold tail_match.
  assert (Htag : lit ci [45; np_vtag p] (45 :: np_vtag p :: d1 ++ 46 :: d2 ++
     (match d3 with Some d => 46 :: d | None => [] end ++ 46 :: ext)) =
     Some (d1 ++ 46 :: d2 ++ (match d3 with Some d => 46 :: d | None => [] end ++ 46 :: ext))).
  { simpl. rewrite !char_match_refl. reflexivity. }
  rewrite Htag. cbn [obind].
  rewrite digits1_app by (assumption || reflexivity). cbn [obind].
  rewrite lit_dot. cbn [obind].
  destruct d3 as [d|].
  - specialize (H3 d eq_refl). cbn [app].
    rewrite digits1_app by (assumption || reflexivity). cbn [obind].
    rewrite lit_dot. cbn [obind].
    rewrite digits1_app by (assumption || reflexivity). cbn [obind].
    rewrite lit_dot. cbn [obind]. rewrite Ha. reflexivity.
  - cbn [app].
    rewrite digits1_app by (assumption || reflexivity). cbn [obind].
    rewrite lit_dot. cbn [obind]. rewrite Hd. cbn [obind]. rewrite Ha. reflexivity.
Qed.

Lemma Forall_skipn_ : forall {A} (P : A -> Prop) j l, Forall P l -> Forall P (skipn j l).
Proof.
  intros A P j. induction j as [|j IH]; intros l H; [exact H|].
  destruct l as [|x l]; [constructor|]. inversion H; subst. simpl. apply IH. assumption.
Qed.

Lemma lit_dash_fails : forall ci v s,
  Forall (fun c => c <> 45 /\ lower_char c <> 45) s -> lit ci [45; v] s = None.
Proof.
  intros ci v [|c s] H; [reflexivity|].
  inversion H as [|? ? [Hc Hl] _]; subst. simpl. unfold char_match.
  destruct ci.
  - replace (lower_char 45 =? lower_char c) with false
      by (symmetry; apply Z.eqb_neq; change (lower_char 45) with 45;
          intros E; apply Hl; symmetry; exact E).
    reflexivity.
  - replace (45 =? c) with false by (symmetry; apply Z.eqb_neq; lia). reflexivity.
Qed.

Lemma tail_suffix_fails : forall ci p d1 d2 d3 ext j,
  (p = bom_pattern \/ p = modacc_pattern) -> In ext (np_exts p) ->
  digit_str d1 = true -> digit_str d2 = true ->
  (forall d, d3 = Some d -> digit_str d = true) -> (0 < j)%nat ->
  tail_match ci p (skipn j (45 :: np_vtag p :: d1 ++ 46 :: d2 ++
     (match d3 with Some d => 46 :: d | None => [] end ++ 46 :: ext))) = None.
Proof.
  intros ci p d1 d2 d3 ext j Hp Hext H1 H2 H3 Hj.
  destruct j as [|j]; [lia|]. simpl skipn.
  destruct (ext_alt_own ci p ext Hp Hext) as [_ [_ Hx]].
  unfold tail_match. rewrite lit_dash_fails; [reflexivity|].
  apply Forall_skipn_. constructor.
  - destruct Hp as [-> | ->]; vm_compute; split; discriminate.
  - apply Forall_app. split; [apply digit_not_dash, digit_str_forallb; exact H1|].
    constructor; [vm_compute; split; discriminate|].
    apply Forall_app. split; [apply digit_not_dash, digit_str_forallb; exact H2|].
    apply Forall_app. split.
    + destruct d3 as [d|]; [|constructor].
      constructor; [vm_compute; split; discriminate|].
      apply digit_not_dash, digit_str_forallb, H3. reflexivity.
    + constructor; [vm_compute; split; discriminate|exact Hx].
Qed.

Lemma try_group_own : forall ci p g t k,
  g <> [] -> existsb (fun c => c =? 10) g = false ->
  tail_match ci p t = Some [] ->
  (forall j, (0 < j)%nat -> tail_match ci p (skipn j t) = None) ->
  (List.length g <= k <= List.length (g ++ t))%nat ->
  try_group ci p (g ++ t) k = Some (g, []).
Proof.
  intros ci p g t k Hg Hnl Ht Hs. induction k as [|k IH]; intros Hk.
  - destruct g; [contradiction|simpl in Hk; lia].
  - cbn [try_group].
    destruct (Nat.eq_dec (S k) (List.length g)) as [E|E].
    + rewrite E, firstn_app, Nat.sub_diag, firstn_all, app_nil_r, Hnl.
      rewrite skipn_app, Nat.sub_diag, skipn_all. simpl. rewrite Ht. reflexivity.
    + rewrite skipn_app, (skipn_all2 g) by lia. rewrite app_nil_l.
      rewrite (Hs (S k - List.length g)%nat) by lia.
      destruct (existsb (fun c => c =? 10) (firstn (S k) (g ++ t)));
        apply IH; rewrite length_app in *; lia.
Qed.

(** X12: for a file name of the shape the pattern describes, with a
    non-empty group free of newlines, a version [d1.d2] or [d1.d2.d3]
    and one of the pattern's extensions in lower case, the file is
    discovered and the module name extracted from it is the group. *)
Theorem module_name_round_trip : forall p g d1 d2 d3 ext,
  (p = bom_pattern \/ p = modacc_pattern) -> In ext (np_exts p) ->
  g <> [] -> ~ In 10 g ->
  digit_str d1 = true -> digit_str d2 = true ->
  (forall d, d3 = Some d -> digit_str d = true) ->
  discovered p (pattern_name p g (version_str d1 d2 d3) ext) = true /\
  module_name_of p (pattern_name p g (version_str d1 d2 d3) ext) = g.
Proof.
  intros p g d1 d2 d3 ext Hp Hext Hg Hnl H1 H2 H3.
  set (t := 45 :: np_vtag p :: d1 ++ 46 :: d2 ++
              (match d3 with Some d => 46 :: d | None => [] end ++ 46 :: ext)).
  assert (Hname : pattern_name p g (version_str d1 d2 d3) ext = np_prefix p ++ g ++ t).
  { unfold pattern_name, version_str, t.
    destruct d3; simpl;
      repeat first [rewrite <- app_assoc | rewrite <- app_comm_cons]; reflexivity. }
  assert (Hnl' : existsb (fun c => c =? 10) g = false).
  { apply not_true_is_false. intros E. apply existsb_exists in E as [c [Hc Ec]].
    apply Z.eqb_eq in Ec. subst c. contradiction. }
  assert (Hm : forall ci, pattern_match ci p (pattern_name p g (version_str d1 d2 d3) ext)
                          = Some (g, [])).
  { intros ci. rewrite Hname. unfold pattern_match. rewrite lit_app. cbn [obind].
    apply try_group_own; auto.
    - apply tail_match_own; assumption.
    - intros j Hj. apply tail_suffix_fails; assumption.
    - rewrite length_app. lia. }
  split.
  - unfold discovered, matches. rewrite Hm. reflexivity.
  - unfold module_name_of, re_sub_group1. rewrite Hm. apply app_nil_r.
Qed.

Lemma module_name_round_trip_witness :
  (modacc_pattern = bom_pattern \/ modacc_pattern = modacc_pattern) /\
  In (u "xlsx") (np_exts modacc_pattern) /\
  u "LedDriver" <> [] /\ ~ In 10 (u "LedDriver") /\
  digit_str (u "1") = true /\ digit_str (u "10") = true /\
  (forall d, Some (u "3") = Some d -> digit_str d = true) /\
  discovered modacc_pattern
    (pattern_name modacc_pattern (u "LedDriver") (version_str (u "1") (u "10") (Some (u "3")))
       (u "xlsx")) = true /\
  module_name_of modacc_pattern
    (pattern_name modacc_pattern (u "LedDriver") (version_str (u "1") (u "10") (Some (u "3")))
       (u "xlsx")) = u "LedDriver".
Proof.
  assert (Hp : modacc_pattern = bom_pattern \/ modacc_pattern = modacc_pattern) by (right; reflexivity).
  assert (He : In (u "xlsx") (np_exts modacc_pattern)) by (left; reflexivity).
  assert (Hg : u "LedDriver" <> []) by discriminate.
  assert (Hn : ~ In 10 (u "LedDriver")) by (simpl; intuition discriminate).
  assert (H1 : digit_str (u "1") = true) by reflexivity.
  assert (H2 : digit_str (u "10") = true) by reflexivity.
  assert (H3 : forall d, Some (u "3") = Some d -> digit_str d = true)
    by (intros d E; injection E as <-; reflexivity).
  split; [exact Hp|]. split; [exact He|]. split; [exact Hg|]. split; [exact Hn|].
  split; [exact H1|]. split; [exact H2|]. split; [exact H3|].
  exact (module_name_round_trip modacc_pattern (u "LedDriver") (u "1") (u "10") (Some (u "3"))
           (u "xlsx") Hp He Hg Hn H1 H2 H3).
Defined.

(* ------------------------------------------------------------------ *)
(** ** Module names of the non-self-purchase report *)

Lemma take_while_not_app : forall ch l rest,
  ~ In ch l -> take_while_not ch (l ++ ch :: rest) = l.
Proof.
  intros ch. induction l as [|c l IH]; intros rest Hn; simpl.
  - rewrite Z.eqb_refl. reflexivity.
  - replace (c =? ch) with false by (symmetry; apply Z.eqb_neq; intros ->; apply Hn; left; reflexivity).
    rewrite IH; [reflexivity|]. intros H. apply Hn. right. exact H.
Qed.

Lemma basename_app : forall dir name, ~ In 47 name -> basename (dir ++ [47] ++ name) = name.
Proof.
  intros dir name Hn. unfold basename.
  rewrite rev_app_distr, rev_app_distr. simpl rev at 2.
  rewrite <- app_assoc. simpl.
  rewrite take_while_not_app; [apply rev_involutive|].
  rewrite <- in_rev. exact Hn.
Qed.

Lemma replace_empty_from_absent : forall old s,
  contains s old = false -> replace_empty_from old 0 s = s.
Proof.
  intros old. induction s as [|c s IH]; intros H; [reflexivity|].
  change (startswith (c :: s) old || contains s old = false) in H.
  apply orb_false_iff in H as [H1 H2].
  cbn [replace_empty_from]. rewrite H1, IH by exact H2. reflexivity.
Qed.

Lemma replace_empty_from_skip : forall old l x,
  replace_empty_from old (List.length l) (l ++ x) = replace_empty_from old 0 x.
Proof.
  intros old. induction l as [|c l IH]; intros x; [reflexivity|]. simpl. apply IH.
Qed.

Lemma startswith_refl : forall s, startswith s s = true.
Proof. induction s as [|c s IH]; simpl; [reflexivity|]. rewrite Z.eqb_refl. exact IH. Qed.

(** A pattern whose only [.] is its first character cannot start inside
    [x] and run on into a [y] that starts with [.]. *)
Lemma startswith_dot_app : forall rest x y,
  ~ In 46 rest -> x <> [] -> (y = [] \/ head y = Some 46) ->
  startswith (x ++ y) (46 :: rest) = true -> startswith x (46 :: rest) = true.
Proof.
  intros rest x y Hr Hx Hy.
  assert (Gen : forall p x, (forall c, In c p -> c <> 46) -> x <> [] ->
            startswith (x ++ y) p = true -> startswith x p = true).
  { clear x Hx. induction p as [|a p IH]; intros [|c x] Hp Hx H; try reflexivity;
      [contradiction|].
    simpl in H |- *. apply andb_true_iff in H as [Ha H]. rewrite Ha. simpl.
    destruct x as [|c' x].
    - destruct p as [|b p]; [reflexivity|]. exfalso.
      destruct Hy as [->|Hy]; [discriminate|].
      destruct y as [|d y]; [discriminate|]. simpl in Hy. injection Hy as ->.
      simpl in H. apply andb_true_iff in H as [Hb _]. apply Z.eqb_eq in Hb.
      apply (Hp b); [right; left; reflexivity|exact Hb].
    - apply IH; [intros d Hd; apply Hp; right; exact Hd|discriminate|exact H]. }
  destruct x as [|c x]; [contradiction|]. simpl.
  intros H. apply andb_true_iff in H as [Hc H]. rewrite Hc. simpl.
  destruct x as [|c' x].
  - destruct rest as [|b rest]; [reflexivity|]. exfalso.
    destruct Hy as [->|Hy]; [simpl in H; discriminate|].
    destruct y as [|d y]; [discriminate|]. simpl in Hy. injection Hy as ->.
    simpl in H. apply andb_true_iff in H as [Hb _]. apply Z.eqb_eq in Hb. subst b.
    apply Hr. left. reflexivity.
  - apply (Gen rest (c' :: x)); [|discriminate|exact H].
    intros d Hd ->. contradiction.
Qed.

Lemma contains_dot_app : forall rest x y,
  ~ In 46 rest -> (y = [] \/ head y = Some 46) ->
  contains (x ++ y) (46 :: rest) = true ->
  contains x (46 :: rest) = true \/ contains y (46 :: rest) = true.
Proof.
  intros rest x y Hr Hy. induction x as [|c x IH]; intros H; [right; exact H|].
  change (startswith (c :: x ++ y) (46 :: rest) || contains (x ++ y) (46 :: rest) = true) in H.
  apply orb_true_iff in H as [H|H].
  - left. change (startswith (c :: x) (46 :: rest) || contains x (46 :: rest) = true).
    rewrite (startswith_dot_app rest (c :: x) y Hr ltac:(discriminate) Hy H). reflexivity.
  - destruct (IH H) as [H'|H']; [left|right; exact H'].
    change (startswith (c :: x) (46 :: rest) || contains x (46 :: rest) = true).
    rewrite H'. apply orb_true_r.
Qed.

Lemma replace_empty_from_dot_suffix : forall rest s,
  ~ In 46 rest -> contains s (46 :: rest) = false ->
  replace_empty_from (46 :: rest) 0 (s ++ 46 :: rest) = s.
Proof.
  intros rest s Hr. induction s as [|c s IH]; intros H.
  - cbn [app replace_empty_from]. rewrite startswith_refl.
    replace (List.length (46%Z :: rest) - 1)%nat with (List.length rest) by (cbn [List.length]; lia).
    pose proof (replace_empty_from_skip (46 :: rest) rest []) as E.
    rewrite app_nil_r in E. rewrite E. reflexivity.
  - change (startswith (c :: s) (46 :: rest) || contains s (46 :: rest) = false) in H.
    apply orb_false_iff in H as [H1 H2].
    change ((c :: s) ++ 46 :: rest) with (c :: (s ++ 46 :: rest)).
    cbn [replace_empty_from].
    destruct (startswith (c :: s ++ 46 :: rest) (46 :: rest)) eqn:E.
    + exfalso. change (c :: s ++ 46 :: rest) with ((c :: s) ++ 46 :: rest) in E.
      rewrite (startswith_dot_app rest (c :: s) (46 :: rest) Hr ltac:(discriminate)
                 (or_intror eq_refl) E) in H1. discriminate.
    + rewrite IH by exact H2. reflexivity.
Qed.

Lemma contains_prefix : forall s p q, contains s (p ++ q) = true -> contains s p = true.
Proof.
  intros s p q. induction s as [|c s IH]; intros H.
  - destruct p; [reflexivity|]. simpl in H. discriminate.
  - change (startswith (c :: s) (p ++ q) || contains s (p ++ q) = true) in H.
    change (startswith (c :: s) p || contains s p = true).
    apply orb_true_iff in H as [H|H]; apply orb_true_iff; [left|right; exact (IH H)].
    revert H. generalize (c :: s). clear. induction p as [|a p IH]; intros [|b l] H;
      try reflexivity; [discriminate|].
    simpl in H |- *. apply andb_true_iff in H as [H1 H2]. rewrite H1. exact (IH l H2).
Qed.

Lemma existsb_eqb_notin : forall ch l, existsb (Z.eqb ch) l = false -> ~ In ch l.
Proof.
  intros ch l H Hin.
  assert (existsb (Z.eqb ch) l = true) by (apply existsb_exists; exists ch; split;
    [exact Hin|apply Z.eqb_refl]).
  congruence.
Qed.

(** X13: the non-self-purchase script names a record's module after its
    file: [dir/name.xlsx] and [dir/name.xls] both give [name] when [name]
    has no [/] and no [.xls] inside it, so the [BOM_] prefix and the
    version are kept, only the extension goes. *)
Theorem nonself_module_strips_extension : forall dir name ext t recs,
  (ext = u ".xlsx" \/ ext = u ".xls") ->
  existsb (Z.eqb 47) name = false ->
  contains name (u ".xls") = false ->
  process_bom_file (dir ++ [47] ++ name ++ ext) t = Some recs ->
  Forall (fun r => nr_module r = clean_invalid_content (CStr name)) recs.
Proof.
  intros dir name ext t recs Hext Hsl Hxls Hp.
  apply process_bom_file_records in Hp as (hdrs & rows & _ & _ & ->).
  apply Forall_forall. intros r Hr. apply in_map_iff in Hr as (x & <- & _). cbn [nr_module].
  do 2 f_equal.
  assert (Hxlsx : contains name (u ".xlsx") = false).
  { destruct (contains name (u ".xlsx")) eqn:E; [|reflexivity].
    change (u ".xlsx") with (u ".xls" ++ [120]) in E.
    rewrite (contains_prefix _ _ _ E) in Hxls. discriminate. }
  assert (Hr : ~ In 46 [120; 108; 115; 120]) by (simpl; intuition lia).
  assert (Hr' : ~ In 46 [120; 108; 115]) by (simpl; intuition lia).
  unfold nonself_module_name. rewrite basename_app.
  2:{ apply existsb_eqb_notin. rewrite existsb_app, Hsl.
      destruct Hext as [->| ->]; reflexivity. }
  destruct Hext as [->| ->].
  - change (u ".xlsx") with (46 :: [120; 108; 115; 120]). unfold replace_empty.
    rewrite replace_empty_from_dot_suffix by assumption.
    change (46 :: [120; 108; 115]) with (u ".xls").
    apply replace_empty_from_absent. exact Hxls.
  - unfold replace_empty. change (u ".xlsx") with (46 :: [120; 108; 115; 120]).
    change (u ".xls") with (46 :: [120; 108; 115]).
    rewrite replace_empty_from_absent.
    + apply replace_empty_from_dot_suffix; assumption.
    + destruct (contains (name ++ 46 :: [120; 108; 115]) (46 :: [120; 108; 115; 120])) eqn:E;
        [|reflexivity].
      destruct (contains_dot_app _ name [46; 120; 108; 115] Hr (or_intror eq_refl) E) as [E'|E'].
      * change (46 :: [120; 108; 115; 120]) with (u ".xlsx") in E'. congruence.
      * discriminate E'.
Qed.

Lemma nonself_module_strips_extension_witness :
  Forall (fun r => nr_module r = clean_invalid_content (CStr (u "BOM_PowerModule-v1.0")))
    (match process_bom_file (u "PowerModule" ++ [47] ++ u "BOM_PowerModule-v1.0" ++ u ".xlsx")
             (b_table easy_bom) with Some r => r | None => [] end).
Proof.
  apply (nonself_module_strips_extension (u "PowerModule") (u "BOM_PowerModule-v1.0")
           (u ".xlsx") (b_table easy_bom)).
  - left. reflexivity.
  - vm_compute. reflexivity.
  - vm_compute. reflexivity.
  - vm_compute. reflexivity.
Defined.

(* ------------------------------------------------------------------ *)
(** ** The workbook of the non-self-purchase report *)

Section LastWrite.

Context {A : Type}.
Variable proj : ev -> option (nat * nat * A).
Hypothesis proj_pos : forall e r c a, proj e = Some (r, c, a) -> pos_of e = (r, c).

Lemma last_skip : forall r c l acc,
  (forall e r' c' a, In e l -> proj e = Some (r', c', a) -> (r', c') <> (r, c)) ->
  fold_left (last_step proj r c) l acc = acc.
Proof.
  intros r c l. induction l as [|e l IH]; intros acc H; [reflexivity|].
  simpl. rewrite IH by (intros e' r' c' a He'; apply H; right; exact He').
  unfold last_step. destruct (proj e) as [[[r' c'] a]|] eqn:E; [|reflexivity].
  destruct (Nat.eqb r' r) eqn:E1; destruct (Nat.eqb c' c) eqn:E2; try reflexivity.
  apply Nat.eqb_eq in E1, E2. subst. exfalso. apply (H e r c a); [left; reflexivity|exact E|reflexivity].
Qed.

Lemma last_miss : forall r c l acc,
  (forall e, In e l -> pos_of e <> (r, c)) ->
  fold_left (last_step proj r c) l acc = acc.
Proof.
  intros r c l acc H. apply last_skip.
  intros e r' c' a He Hp. apply proj_pos in Hp. rewrite <- Hp. apply H. exact He.
Qed.

Lemma last_hit : forall r c l1 e l2 a acc,
  proj e = Some (r, c, a) ->
  (forall e' r' c' a', In e' l2 -> proj e' = Some (r', c', a') -> (r', c') <> (r, c)) ->
  fold_left (last_step proj r c) (l1 ++ e :: l2) acc = Some a.
Proof.
  intros r c l1 e l2 a acc He H. rewrite fold_left_app. cbn [fold_left].
  rewrite last_skip by exact H. unfold last_step at 1. rewrite He, !Nat.eqb_refl. reflexivity.
Qed.

Lemma last_found : forall r c l acc a,
  fold_left (last_step proj r c) l acc = Some a ->
  acc = Some a \/ exists e, In e l /\ proj e = Some (r, c, a).
Proof.
  intros r c l. induction l as [|e l IH]; intros acc a H; [left; exact H|].
  simpl in H. apply IH in H as [H|(e' & He' & H')].
  - unfold last_step in H. destruct (proj e) as [[[r' c'] b]|] eqn:E; [|left; exact H].
    destruct (Nat.eqb r' r) eqn:E1; destruct (Nat.eqb c' c) eqn:E2; simpl in H;
      try (left; exact H).
    apply Nat.eqb_eq in E1, E2. subst. injection H as ->. right. exists e.
    split; [left; reflexivity|exact E].
  - right. exists e'. split; [right; exact He'|exact H'].
Qed.

End LastWrite.

Lemma ev_val_pos : forall e r c a, ev_val e = Some (r, c, a) -> pos_of e = (r, c).
Proof. intros e r c a H; destruct e; simpl in H; try discriminate. injection H as -> -> ->. reflexivity. Qed.

Lemma ev_fill_pos : forall e r c a, ev_fill e = Some (r, c, a) -> pos_of e = (r, c).
Proof. intros e r c a H; destruct e; simpl in H; try discriminate. injection H as -> -> ->. reflexivity. Qed.

Lemma write_data_pos : forall n cur idx rows e,
  In e (write_data n cur idx rows) ->
  (cur <= fst (pos_of e) < cur + List.length rows)%nat /\ (1 <= snd (pos_of e) <= n)%nat.
Proof.
  intros n cur idx rows. revert cur idx.
  induction rows as [|r rs IH]; intros cur idx e He; [contradiction|].
  simpl in He. apply in_app_or in He as [He|He]; [|apply in_app_or in He as [He|He]].
  - apply in_map_iff in He as ([c v] & <- & Hc). apply in_combine_l, in_seq in Hc.
    simpl. lia.
  - apply in_map_iff in He as (c & <- & Hc). apply in_seq in Hc. simpl. lia.
  - apply IH in He. simpl. lia.
Qed.

Lemma write_headers_pos : forall r hdrs e,
  In e (write_headers r hdrs) -> fst (pos_of e) = r /\ (1 <= snd (pos_of e) <= List.length hdrs)%nat.
Proof.
  intros r hdrs e He. apply in_flat_map in He as ([c h] & Hc & He).
  apply in_combine_l, in_seq in Hc.
  destruct He as [<-|[<-|[]]]; simpl; lia.
Qed.

Lemma combine_val : forall rr vs j m c v acc,
  nth_error vs c = Some v -> (c < m)%nat ->
  fold_left (last_step ev_val rr (j + c))
    (map (fun p => SetVal rr (fst p) (snd p)) (combine (seq j m) vs)) acc = Some v.
Proof.
  intros rr. induction vs as [|x vs IH]; intros j m c v acc Hv Hc.
  - destruct c; discriminate.
  - destruct m as [|m]; [lia|]. cbn [seq combine map fold_left].
    destruct c as [|c].
    + injection Hv as ->. unfold last_step at 2. cbn [ev_val fst snd].
      rewrite Nat.eqb_refl, Nat.add_0_r, Nat.eqb_refl. simpl andb.
      apply (last_miss ev_val ev_val_pos).
      intros e He. apply in_map_iff in He as ([c' v'] & <- & Hc').
      apply in_combine_l, in_seq in Hc'. simpl. intros H. injection H. lia.
    + replace (j + S c)%nat with (S j + c)%nat by lia. apply IH; [exact Hv|lia].
Qed.

Lemma seq_fill : forall rr f j m col acc,
  (j <= col < j + m)%nat ->
  fold_left (last_step ev_fill rr col) (map (fun c => SetFill rr c f) (seq j m)) acc = Some f.
Proof.
  intros rr f j m. revert j. induction m as [|m IH]; intros j col acc Hc; [lia|].
  cbn [seq map fold_left].
  destruct (Nat.eq_dec j col) as [<-|Hne].
  - unfold last_step at 2. cbn [ev_fill]. rewrite !Nat.eqb_refl. simpl andb.
    apply (last_miss ev_fill ev_fill_pos).
    intros e He. apply in_map_iff in He as (c' & <- & Hc').
    apply in_seq in Hc'. simpl. intros H. injection H as ->. lia.
  - apply IH. lia.
Qed.

Lemma write_data_val : forall n rows cur idx k row c v acc,
  nth_error rows k = Some row -> nth_error row c = Some v -> (c < n)%nat ->
  fold_left (last_step ev_val (cur + k) (S c)) (write_data n cur idx rows) acc = Some v.
Proof.
  intros n. induction rows as [|r rs IH]; intros cur idx k row c v acc Hk Hv Hc.
  - destruct k; discriminate.
  - cbn [write_data]. rewrite !fold_left_app. destruct k as [|k].
    + injection Hk as ->. rewrite Nat.add_0_r.
      pose proof (combine_val cur row 1 n c v acc Hv Hc) as E. cbn [Nat.add] in E. rewrite E.
      rewrite (last_skip ev_val cur (S c) (map (fun c0 => SetFill cur c0 (row_fill_of idx)) (seq 1 n))).
      2:{ intros e r' c' a He. apply in_map_iff in He as (c0 & <- & _). discriminate. }
      apply (last_miss ev_val ev_val_pos).
      intros e He. apply write_data_pos in He. intros Hp. rewrite Hp in He. simpl in He. lia.
    + replace (cur + S k)%nat with (S cur + k)%nat by lia. apply (IH _ _ _ row); assumption.
Qed.

Lemma write_data_fill : forall n rows cur idx k row col acc,
  nth_error rows k = Some row -> (1 <= col <= n)%nat ->
  fold_left (last_step ev_fill (cur + k) col) (write_data n cur idx rows) acc
  = Some (row_fill_of (idx + k)).
Proof.
  intros n. induction rows as [|r rs IH]; intros cur idx k row col acc Hk Hc.
  - destruct k; discriminate.
  - cbn [write_data]. rewrite !fold_left_app. destruct k as [|k].
    + rewrite !Nat.add_0_r.
      rewrite (last_skip ev_fill cur col (map (fun p => SetVal cur (fst p) (snd p)) (combine (seq 1 n) r))).
      2:{ intros e r' c' a He. apply in_map_iff in He as (p & <- & _). discriminate. }
      rewrite (seq_fill cur (row_fill_of idx) 1 n col acc) by lia.
      apply (last_miss ev_fill ev_fill_pos).
      intros e He. apply write_data_pos in He. intros Hp. rewrite Hp in He. simpl in He. lia.
    + replace (cur + S k)%nat with (S cur + k)%nat by lia.
      replace (idx + S k)%nat with (S idx + k)%nat by lia.
      apply (IH _ _ _ row); assumption.
Qed.

(** Where the writes after the regular table go. *)
Lemma special_part_pos : forall (reg spec : list (list ustr)) e,
  In e (match spec with
        | [] => []
        | _ :: _ =>
            [SetVal (List.length reg + 3) 1 special_title; SetBold (List.length reg + 3) 1]
            ++ write_headers (S (List.length reg + 3)) special_headers
            ++ write_data 4 (S (S (List.length reg + 3))) 1 spec
        end) ->
  (List.length reg + 3 <= fst (pos_of e))%nat.
Proof.
  intros reg [|r rs] e He; [contradiction|].
  apply in_app_or in He as [He|He]; [destruct He as [<-|[<-|[]]]; simpl; lia|].
  apply in_app_or in He as [He|He].
  - apply write_headers_pos in He. lia.
  - apply write_data_pos in He. lia.
Qed.

Lemma regular_part_pos : forall (reg : list (list ustr)) e,
  In e (write_headers 1 regular_headers ++ write_data 3 2 1 reg) ->
  (1 <= fst (pos_of e) <= S (List.length reg))%nat.
Proof.
  intros reg e He. apply in_app_or in He as [He|He].
  - apply write_headers_pos in He. lia.
  - apply write_data_pos in He. lia.
Qed.

Lemma split_regular_special_widths : forall s reg spec,
  split_regular_special s = (reg, spec) ->
  Forall (fun r => List.length r = 3%nat) reg /\ Forall (fun r => List.length r = 4%nat) spec.
Proof.
  intros s reg spec H. unfold split_regular_special, split_rows in H.
  injection H as <- <-. split; apply Forall_forall; intros x Hx;
    apply in_map_iff in Hx as (r & <- & _); reflexivity.
Qed.


Lemma format_events_pos : forall reg spec e,
  In e (format_events reg spec) ->
  (fst (pos_of e) <= S (List.length reg) \/ List.length reg + 3 <= fst (pos_of e))%nat.
Proof.
  intros reg spec e He. unfold format_events in He. rewrite app_assoc in He.
  apply in_app_or in He as [He|He].
  - left. apply regular_part_pos in He. lia.
  - right. exact (special_part_pos reg spec e He).
Qed.

Lemma format_regular_value : forall reg spec k row c v,
  nth_error reg k = Some row -> nth_error row c = Some v -> (c < 3)%nat ->
  cell_value (format_events reg spec) (2 + k) (S c) = Some v.
Proof.
  intros reg spec k row c v Hk Hv Hc.
  assert (Hkl : (k < List.length reg)%nat) by (apply nth_error_Some; rewrite Hk; discriminate).
  unfold cell_value, format_events. rewrite !fold_left_app.
  rewrite (write_data_val 3 reg 2 1 k row c v) by assumption.
  apply (last_miss ev_val ev_val_pos).
  intros e He. apply special_part_pos in He. intros Hp. rewrite Hp in He. simpl in He. lia.
Qed.


Lemma format_title_value : forall reg spec,
  spec <> [] ->
  cell_value (format_events reg spec) (List.length reg + 3) 1 = Some special_title.
Proof.
  intros reg spec Hne. destruct spec as [|r0 rs]; [contradiction|].
  unfold cell_value.
  change (format_events reg (r0 :: rs)) with
    (write_headers 1 regular_headers ++ write_data 3 2 1 reg ++
     SetVal (List.length reg + 3) 1 special_title ::
     SetBold (List.length reg + 3) 1 ::
     write_headers (S (List.length reg + 3)) special_headers ++
     write_data 4 (S (S (List.length reg + 3))) 1 (r0 :: rs)).
  rewrite app_assoc. apply (last_hit ev_val); [reflexivity|].
  intros e r' c' a' He Hp.
  destruct He as [<-|He]; [discriminate Hp|]. apply ev_val_pos in Hp.
  apply in_app_or in He as [He|He].
  - apply write_headers_pos in He. rewrite Hp in He. simpl in He.
    intros H. injection H. lia.
  - apply write_data_pos in He. rewrite Hp in He. simpl in He.
    intros H. injection H. lia.
Qed.

Lemma format_blank_row : forall reg spec c,
  cell_value (format_events reg spec) (List.length reg + 2) c = None.
Proof.
  intros reg spec c. unfold cell_value. apply (last_miss ev_val ev_val_pos).
  intros e He. apply format_events_pos in He. intros Hp. rewrite Hp in He.
  simpl in He. lia.
Qed.






Lemma fold_max_init : forall (l : list ev) m0,
  (m0 <= fold_left (fun m e => Nat.max m (fst (pos_of e))) l m0)%nat.
Proof.
  induction l as [|e l IH]; intros m0; simpl; [lia|].
  specialize (IH (Nat.max m0 (fst (pos_of e)))). lia.
Qed.

Lemma fold_max_elem : forall (l : list ev) m0 e,
  In e l -> (fst (pos_of e) <= fold_left (fun m e => Nat.max m (fst (pos_of e))) l m0)%nat.
Proof.
  induction l as [|e' l IH]; intros m0 e He; [contradiction|].
  destruct He as [->|He]; simpl.
  - pose proof (fold_max_init l (Nat.max m0 (fst (pos_of e)))). lia.
  - apply IH. exact He.
Qed.

Lemma fold_max_bound : forall (l : list ev) m0 B,
  (m0 <= B)%nat -> (forall e, In e l -> fst (pos_of e) <= B)%nat ->
  (fold_left (fun m e => Nat.max m (fst (pos_of e))) l m0 <= B)%nat.
Proof.
  induction l as [|e l IH]; intros m0 B H0 H; simpl; [exact H0|].
  apply IH; [|intros e' He'; apply H; right; exact He'].
  specialize (H e (or_introl eq_refl)). lia.
Qed.

(** With no special records the sheet ends with the last regular one. *)
Lemma max_row_regular_only : forall reg,
  max_row (format_events reg []) = S (List.length reg).
Proof.
  intros reg. unfold max_row. apply Nat.le_antisymm.
  - apply fold_max_bound; [lia|]. intros e He.
    unfold format_events in He. rewrite app_nil_r in He.
    apply regular_part_pos in He. lia.
  - destruct reg as [|r0 rs] eqn:Er; [apply fold_max_init|].
    destruct (nth_error (r0 :: rs) (List.length rs)) as [lst|] eqn:En;
      [|apply nth_error_None in En; simpl in En; lia].
    destruct (last_found ev_fill (2 + List.length rs) 1 (write_data 3 2 1 reg) None
                (row_fill_of (1 + List.length rs))) as [H|(e & He & Hf)].
    + subst reg. apply (write_data_fill 3 _ 2 1 _ lst); [exact En|lia].
    + discriminate.
    + apply ev_fill_pos in Hf. subst reg.
      assert (Hin : In e (format_events (r0 :: rs) [])).
      { unfold format_events. apply in_or_app. right. apply in_or_app. left. exact He. }
      pose proof (fold_max_elem _ 1 e Hin) as Hle. rewrite Hf in Hle. simpl in Hle |- *. lia.
Qed.

Lemma width_miss : forall col l acc,
  (forall p, In p l -> fst p <> col) -> fold_left (width_step col) l acc = acc.
Proof.
  intros col. induction l as [|p l IH]; intros acc H; [reflexivity|].
  simpl. unfold width_step at 2. destruct (Nat.eqb (fst p) col) eqn:E.
  - apply Nat.eqb_eq in E. exfalso. exact (H p (or_introl eq_refl) E).
  - apply IH. intros q Hq. apply H. right. exact Hq.
Qed.

Lemma width_of_adjust : forall (F : nat -> ustr -> Q) hdrs j c h acc,
  nth_error hdrs c = Some h ->
  fold_left (width_step (j + c))
    (map (fun p => (fst p, F (fst p) (snd p))) (combine (seq j (List.length hdrs)) hdrs)) acc
  = Some (F (j + c)%nat h).
Proof.
  intros F. induction hdrs as [|x hdrs IH]; intros j c h acc Hh; [destruct c; discriminate|].
  cbn [List.length seq combine map fold_left].
  destruct c as [|c].
  - injection Hh as ->. rewrite Nat.add_0_r. unfold width_step at 2. cbn [fst snd].
    rewrite Nat.eqb_refl. apply width_miss.
    intros p Hp. apply in_map_iff in Hp as (q & <- & Hq). destruct q as [c' h'].
    apply in_combine_l, in_seq in Hq. simpl. lia.
  - replace (j + S c)%nat with (S j + c)%nat by lia. apply IH. exact Hh.
Qed.

Lemma fold_seq_rows : forall (l : list (list ustr)) j m0 (g : nat -> nat) (hh : list ustr -> nat),
  (forall k row, nth_error l k = Some row -> g (j + k)%nat = hh row) ->
  fold_left (fun m r => Nat.max m (g r)) (seq j (List.length l)) m0
  = fold_left (fun m row => Nat.max m (hh row)) l m0.
Proof.
  induction l as [|x l IH]; intros j m0 g hh H; [reflexivity|].
  cbn [List.length seq fold_left].
  replace (g j) with (hh x) by (rewrite <- (H 0%nat x eq_refl); f_equal; lia).
  apply IH. intros k row Hk. replace (S j + k)%nat with (j + S k)%nat by lia.
  apply H. exact Hk.
Qed.

Lemma fold_nat_max_init : forall (l : list nat) (g : nat -> nat) m0,
  (m0 <= fold_left (fun m r => Nat.max m (g r)) l m0)%nat.
Proof.
  induction l as [|x l IH]; intros g m0; simpl; [lia|].
  specialize (IH g (Nat.max m0 (g x))). lia.
Qed.

Lemma fold_nat_max_elem : forall (l : list nat) (g : nat -> nat) m0 x,
  In x l -> (g x <= fold_left (fun m r => Nat.max m (g r)) l m0)%nat.
Proof.
  induction l as [|y l IH]; intros g m0 x Hx; [contradiction|].
  destruct Hx as [->|Hx]; simpl.
  - pose proof (fold_nat_max_init l g (Nat.max m0 (g x))). lia.
  - apply IH. exact Hx.
Qed.

Lemma width_mono : forall a b, (a <= b)%nat ->
  (inject_Z (Z.of_nat a) * (11 # 10) <= inject_Z (Z.of_nat b) * (11 # 10))%Q.
Proof. intros a b H. unfold Qle. simpl. lia. Qed.

(** With special records, every column's width is computed by the
    second pass, over rows 2 to the last one. *)
Lemma special_width_ge : forall reg spec col r,
  spec <> [] -> (1 <= col <= 4)%nat -> (2 <= r <= List.length reg + 4)%nat ->
  exists w, width_of (format_widths reg spec) col = Some w /\
    (inject_Z (Z.of_nat (char_count (str_value (cell_value (format_events reg spec) r col))))
     * (11 # 10) <= w)%Q.
Proof.
  intros reg spec col r Hne Hc Hr. destruct spec as [|r0 rs]; [contradiction|].
  set (evs := format_events reg (r0 :: rs)).
  destruct (nth_error special_headers (col - 1)) as [h|] eqn:Eh;
    [|apply nth_error_None in Eh; simpl in Eh; lia].
  unfold width_of, format_widths. fold evs. rewrite fold_left_app.
  assert (E : forall acc, fold_left (width_step col)
                (auto_adjust_column_width evs special_headers) acc
              = Some (column_width evs (max_row evs) col h)).
  { intros acc.
    pose proof (width_of_adjust (column_width evs (max_row evs)) special_headers 1 (col - 1)
                  h acc Eh) as E.
    replace (1 + (col - 1))%nat with col in E by lia. exact E. }
  rewrite E. eexists. split; [reflexivity|]. unfold column_width. apply width_mono.
  assert (Hmr : (List.length reg + 4 <= max_row evs)%nat).
  { unfold max_row.
    assert (Hin : In (SetVal (List.length reg + 4) 1 [27169; 22359; 21517; 31216]) evs).
    { unfold evs, format_events. apply in_or_app. right. apply in_or_app. right.
      right. right. apply in_or_app. right. apply in_or_app. left.
      replace (List.length reg + 4)%nat with (S (List.length reg + 3)) by lia.
      left. reflexivity. }
    pose proof (fold_max_elem evs 1 _ Hin) as H. simpl in H. exact H. }
  apply (fold_nat_max_elem _ (fun r => char_count (str_value (cell_value evs r col)))).
  apply in_seq. lia.
Qed.

(** X18: without special records, column [c+1] of the sheet ends with
    1.1 times the larger of the header's [len] and the counted widths of
    the column's values (a CJK character counting 2). The header row
    itself is not counted that way: a header of five CJK characters
    weighs 5, not 10. *)
Theorem nonself_regular_widths : forall s reg c h,
  split_regular_special s = (reg, []) ->
  nth_error regular_headers c = Some h ->
  width_of (format_widths reg []) (S c)
  = Some (inject_Z (Z.of_nat (fold_left (fun m row => Nat.max m (char_count (nth c row [])))
                                 reg (List.length h))) * (11 # 10))%Q.
Proof.
  intros s reg c h Hs Hh.
  destruct (split_regular_special_widths _ _ _ Hs) as [Hr _].
  assert (Hc : (c < List.length regular_headers)%nat)
    by (apply nth_error_Some; rewrite Hh; discriminate).
  simpl in Hc. unfold width_of, format_widths. rewrite app_nil_r.
  unfold auto_adjust_column_width.
  change (S c) with (1 + c)%nat.
  rewrite (width_of_adjust _ regular_headers 1 c h None Hh).
  unfold column_width. rewrite max_row_regular_only.
  replace (S (List.length reg) - 1)%nat with (List.length reg) by lia.
  do 4 f_equal.
  apply fold_seq_rows. intros k row Hk.
  assert (Hl : List.length row = 3%nat).
  { rewrite Forall_forall in Hr. apply Hr. exact (nth_error_In _ _ Hk). }
  assert (Hv : nth_error row c = Some (nth c row [])) by (apply nth_error_nth'; lia).
  assert (E : cell_value (format_events reg []) (2 + k) (1 + c) = Some (nth c row []))
    by exact (format_regular_value reg [] k row c _ Hk Hv Hc).
  rewrite E. reflexivity.
Qed.

(** X19: with special records, every column 1 to 4 ends at least 4.4
    wide, since the empty row before the title reads as ["None"], and
    column 1 at least 28.6 wide, the counted width 26 of the title. *)
Theorem nonself_special_widths : forall reg spec,
  spec <> [] ->
  (exists w, width_of (format_widths reg spec) 1 = Some w /\ (286 # 10 <= w)%Q) /\
  (forall col, (1 <= col <= 4)%nat ->
     exists w, width_of (format_widths reg spec) col = Some w /\ (44 # 10 <= w)%Q).
Proof.
  intros reg spec Hne. split.
  - destruct (special_width_ge reg spec 1 (List.length reg + 3) Hne) as (w & Hw & Hle);
      [lia|lia|].
    exists w. split; [exact Hw|].
    rewrite (format_title_value reg spec Hne) in Hle. exact Hle.
  - intros col Hc.
    destruct (special_width_ge reg spec col (List.length reg + 2) Hne Hc) as (w & Hw & Hle);
      [lia|].
    exists w. split; [exact Hw|].
    rewrite format_blank_row in Hle. exact Hle.
Qed.



Lemma nonself_regular_widths_witness :
  split_regular_special easy_regular_recs = (fst (split_regular_special easy_regular_recs), []) /\
  width_of (format_widths (fst (split_regular_special easy_regular_recs)) []) 1
    = Some (55 # 10).
Proof.
  assert (Hs : split_regular_special easy_regular_recs
               = (fst (split_regular_special easy_regular_recs), []))
    by (vm_compute; reflexivity).
  split; [exact Hs|].
  rewrite (nonself_regular_widths easy_regular_recs _ 0%nat (hd [] regular_headers) Hs)
    by reflexivity.
  vm_compute. reflexivity.
Defined.

Lemma nonself_special_widths_witness :
  snd easy_tables <> [] /\
  exists w, width_of (format_widths (fst easy_tables) (snd easy_tables)) 1 = Some w /\
            (286 # 10 <= w)%Q.
Proof.
  assert (Hne : snd easy_tables <> []) by (vm_compute; discriminate).
  split; [exact Hne|].
  exact (proj1 (nonself_special_widths (fst easy_tables) (snd easy_tables) Hne)).
Defined.

(* ------------------------------------------------------------------ *)
(** ** Which BOM files each script reads *)

Lemma lit_cons_inv : forall ci x p s r,
  lit ci (x :: p) s = Some r ->
  exists y s', s = y :: s' /\ char_match ci x y = true /\ lit ci p s' = Some r.
Proof.
  intros ci x p [|y s'] r H; [discriminate|].
  cbn [lit] in H. destruct (char_match ci x y) eqn:E; [|discriminate].
  exists y, s'. auto.
Qed.

Lemma char_match_in_class : forall x a cls,
  char_match true x a = true -> In x cls -> in_class a cls = true.
Proof.
  intros x a cls H Hx. unfold in_class. apply existsb_exists.
  exists x. split; [exact Hx|exact H].
Qed.

Lemma discovered_bom_prefix : forall name,
  discovered bom_pattern name = true ->
  exists a b c rest, name = a :: b :: c :: rest /\
    char_match true 66 a = true /\ char_match true 79 b = true /\
    char_match true 77 c = true.
Proof.
  intros name H. unfold discovered, matches, pattern_match in H.
  change (np_prefix bom_pattern) with [66; 79; 77; 95] in H.
  destruct (lit true [66; 79; 77; 95] name) as [body|] eqn:E; [|discriminate H].
  apply lit_cons_inv in E as (a & s1 & -> & Ha & E).
  apply lit_cons_inv in E as (b & s2 & -> & Hb & E).
  apply lit_cons_inv in E as (c & s3 & -> & Hc & _).
  exists a, b, c, s3. auto.
Qed.

(** X14: a file below the root whose name the extraction script's BOM
    pattern discovers, and whose extension is written in lower case, is
    also among the files [find_bom_files] returns. *)
Theorem discovered_bom_found : forall f files,
  In f files -> b_below_root f = true ->
  discovered bom_pattern (b_name f) = true ->
  (endswith (b_name f) (u ".xlsx") || endswith (b_name f) (u ".xls")) = true ->
  In f (find_bom_files files).
Proof.
  intros f files Hin Hbelow Hd Hext. unfold find_bom_files. apply filter_In.
  split; [exact Hin|]. rewrite Hbelow. simpl andb. unfold is_bom_name. rewrite Hext.
  rewrite andb_true_r.
  destruct (discovered_bom_prefix _ Hd) as (a & b & c & rest & Hn & Ha & Hb & Hc).
  rewrite Hn.
  rewrite (char_match_in_class 66 a [66; 98] Ha (or_introl eq_refl)).
  rewrite (char_match_in_class 79 b [48; 79; 111] Hb (or_intror (or_introl eq_refl))).
  rewrite (char_match_in_class 77 c [77; 109] Hc (or_introl eq_refl)).
  reflexivity.
Qed.

(** X15: a name spelled [B0M...] with a zero, which [find_bom_files]
    accepts, is discovered by neither extraction script: such a file
    reaches the non-self-purchase report and never the self-purchase
    reports. *)
Theorem zero_spelled_bom_only_non_self : forall f files rest,
  In f files -> b_below_root f = true ->
  b_name f = u "B0M" ++ rest ->
  endswith (b_name f) (u ".xlsx") = true ->
  In f (find_bom_files files) /\
  discovered bom_pattern (b_name f) = false /\
  discovered modacc_pattern (b_name f) = false.
Proof.
  intros f files rest Hin Hbelow Hn Hext. split; [|split].
  - unfold find_bom_files. apply filter_In. split; [exact Hin|].
    rewrite Hbelow. unfold is_bom_name. rewrite Hext, Hn. reflexivity.
  - rewrite Hn. reflexivity.
  - rewrite Hn. reflexivity.
Qed.

Lemma discovered_bom_found_witness :
  In easy_bom (find_bom_files [easy_bom]).
Proof.
  apply discovered_bom_found.
  - left. reflexivity.
  - reflexivity.
  - vm_compute. reflexivity.
  - vm_compute. reflexivity.
Defined.

Lemma zero_spelled_bom_only_non_self_witness :
  let f := BomSrc true (u "PowerModule") (u "B0M_PowerModule-v1.0.xlsx") None in
  In f (find_bom_files [f]) /\
  discovered bom_pattern (b_name f) = false /\
  discovered modacc_pattern (b_name f) = false.
Proof.
  intros f. apply (zero_spelled_bom_only_non_self f [f] (u "_PowerModule-v1.0.xlsx")).
  - left. reflexivity.
  - reflexivity.
  - reflexivity.
  - vm_compute. reflexivity.
Defined.

(* ------------------------------------------------------------------ *)
(** ** [main] of the non-self-purchase script *)

Lemma process_bom_file_nonempty : forall path t recs,
  process_bom_file path t = Some recs -> recs <> [].
Proof.
  intros path t recs H.
  apply process_bom_file_records in H as (hdrs & rows & _ & Hne & ->).
  intros Hm. apply Hne. apply map_eq_nil in Hm. exact Hm.
Qed.

Lemma flat_map_nil_Forall : forall {A B} (g : A -> list B) l,
  flat_map g l = [] <-> Forall (fun x => g x = []) l.
Proof.
  intros A B g. induction l as [|x l IH]; simpl; [split; auto|].
  split.
  - intros H. apply app_eq_nil in H as [H1 H2]. constructor; [exact H1|apply IH; exact H2].
  - intros H. inversion H as [|? ? H1 H2]; subst. rewrite H1. apply IH. exact H2.
Qed.

(** X20: [main] stops without a workbook exactly when every BOM file
    [find_bom_files] returns gives no component ([process_bom_file]
    returns [None]): a file that is processed at all contributes at
    least one row. *)
Theorem nonself_main_none_iff : forall files,
  nonself_main files = None <->
  Forall (fun f => process_bom_file (b_path f) (b_table f) = None) (find_bom_files files).
Proof.
  intros files. unfold nonself_main.
  set (g := fun f => match process_bom_file (b_path f) (b_table f) with
                     | Some l => l
                     | None => []
                     end).
  assert (Hg : forall f, g f = [] <-> process_bom_file (b_path f) (b_table f) = None).
  { intros f. unfold g. destruct (process_bom_file (b_path f) (b_table f)) as [l|] eqn:E.
    - split; [intros ->; exfalso; exact (process_bom_file_nonempty _ _ _ E eq_refl)|discriminate].
    - split; reflexivity. }
  assert (HF : Forall (fun f => process_bom_file (b_path f) (b_table f) = None)
                 (find_bom_files files)
               <-> flat_map g (find_bom_files files) = []).
  { rewrite flat_map_nil_Forall.
    split; apply Forall_impl; intros f; apply Hg. }
  rewrite HF. fold g.
  destruct (flat_map g (find_bom_files files)); split; (reflexivity || discriminate).
Qed.




(* ------------------------------------------------------------------ *)
(** ** The type tables of the extraction scripts *)

Lemma merge_totals_fst : forall all mt,
  map (fun p => sr_cells (fst p)) (merge_totals all mt) = map sr_cells all.
Proof. intros all mt. unfold merge_totals. rewrite map_map. reflexivity. Qed.

Lemma type_table_props : forall ucols (all : list srec) mt,
  let T := type_table ucols (merge_totals all mt) in
  NoDup (map (type_key ucols) T) /\
  (forall r, In r all -> In (type_key ucols (sr_cells r)) (map (type_key ucols) T)) /\
  (forall c, In c T -> exists r, In r all /\ sr_cells r = c).
Proof.
  intros ucols all mt T. unfold T, type_table, drop_duplicates. rewrite merge_totals_fst.
  split; [|split].
  - apply (drop_dup_from_keys (type_key ucols) (list_eq_dec val_eq_dec)).
  - intros r Hr.
    destruct (drop_dup_from_cover (type_key ucols) (list_eq_dec val_eq_dec) (map sr_cells all)
                [] (sr_cells r) (in_map _ _ _ Hr)) as [[]|H].
    exact H.
  - intros c Hc. apply drop_dup_from_In in Hc. apply in_map_iff in Hc as (r & <- & Hr).
    exists r. split; [exact Hr|reflexivity].
Qed.

(** X22: the type table of [extract_and_format_bom] (file 2) has one row
    per combination of [Manufacturer Part], [Supplier Part], [LCSC Price]
    and [淘宝链接] found among the self-purchase records, and each of its
    rows is the core columns of one of those records. *)
Theorem bom_type_table_one_row_per_type : forall recs,
  NoDup (map (type_key bom_unique_cols) (bom_type_table recs)) /\
  (forall r, In r recs ->
     In (type_key bom_unique_cols (sr_cells r)) (map (type_key bom_unique_cols) (bom_type_table recs))) /\
  (forall c, In c (bom_type_table recs) -> exists r, In r recs /\ sr_cells r = c).
Proof.
  intros recs. unfold bom_type_table, bom_module_table.
  destruct (type_table_props bom_unique_cols (sort_values bom_lt recs)
              (groupby_sum (sort_values bom_lt recs))) as (H1 & H2 & H3).
  split; [exact H1|split].
  - intros r Hr. apply H2. apply (Permutation_in _ (Permutation_sym (sort_values_perm bom_lt recs))).
    exact Hr.
  - intros c Hc. destruct (H3 c Hc) as (r & Hr & Hrc). exists r. split; [|exact Hrc].
    exact (Permutation_in _ (sort_values_perm bom_lt recs) Hr).
Qed.

Lemma lookup_renumber_other : forall k x cells,
  ustr_eqb x (u "No.") = false -> lookup_val x (renumber k cells) = lookup_val x cells.
Proof.
  intros k x. induction cells as [|[h v] cells IH]; intros Hx; [reflexivity|].
  unfold renumber. cbn [map fst]. destruct (ustr_eqb h (u "No.")) eqn:Eh.
  - apply ustr_eqb_eq in Eh. subst h. cbn [lookup_val].
    destruct (ustr_eqb (u "No.") x) eqn:E.
    + apply ustr_eqb_eq in E. rewrite <- E in Hx. discriminate.
    + apply IH. exact Hx.
  - cbn [lookup_val]. destruct (ustr_eqb h x); [reflexivity|]. apply IH. exact Hx.
Qed.

Lemma lookup_renumber_no : forall k cells,
  In (u "No.") (map fst cells) ->
  lookup_val (u "No.") (renumber k cells) = VNum (inject_Z (Z.of_nat k)).
Proof.
  intros k. induction cells as [|[h v] cells IH]; intros Hin; [contradiction|].
  unfold renumber. cbn [map fst]. destruct (ustr_eqb h (u "No.")) eqn:Eh.
  - cbn [lookup_val]. rewrite Eh. reflexivity.
  - cbn [lookup_val]. rewrite Eh. apply IH.
    destruct Hin as [Hh|Hin]; [|exact Hin].
    simpl in Hh. subst h. discriminate.
Qed.

Lemma renumber_type_key : forall k cells,
  type_key modacc_unique_cols (renumber k cells) = type_key modacc_unique_cols cells.
Proof.
  intros k cells. unfold type_key. apply map_ext_in. intros c Hc.
  rewrite lookup_renumber_other; [reflexivity|].
  destruct Hc as [<-|[<-|[<-|[]]]]; reflexivity.
Qed.

Lemma renumber_seq_keys : forall t j,
  map (type_key modacc_unique_cols)
      (map (fun p => renumber (fst p) (snd p)) (combine (seq j (List.length t)) t))
  = map (type_key modacc_unique_cols) t.
Proof.
  induction t as [|c t IH]; intros j; [reflexivity|].
  cbn [List.length seq combine map fst snd]. rewrite renumber_type_key. f_equal. apply IH.
Qed.

Lemma renumber_seq_numbers : forall t j,
  Forall (fun c => In (u "No.") (map fst c)) t ->
  map (lookup_val (u "No."))
      (map (fun p => renumber (fst p) (snd p)) (combine (seq j (List.length t)) t))
  = map (fun k => VNum (inject_Z (Z.of_nat k))) (seq j (List.length t)).
Proof.
  induction t as [|c t IH]; intros j HF; [reflexivity|].
  inversion HF as [|? ? Hc HF']; subst.
  cbn [List.length seq combine map fst snd]. rewrite lookup_renumber_no by exact Hc.
  f_equal. apply IH. exact HF'.
Qed.

(** X23: the type table of [extract_and_format_accessory] (file 2) is
    numbered [1..n] in its [No.] column, whatever the source numbers
    were, and has one row per combination of [Manufacturer Part], [Price]
    and [淘宝链接] found among the records. *)
Theorem modacc_type_table_numbered : forall recs,
  Forall (fun r => In (u "No.") (map fst (sr_cells r))) recs ->
  map (lookup_val (u "No.")) (modacc_type_table recs)
  = map (fun k => VNum (inject_Z (Z.of_nat k))) (seq 1 (List.length (modacc_type_table recs))) /\
  NoDup (map (type_key modacc_unique_cols) (modacc_type_table recs)) /\
  (forall r, In r recs ->
     In (type_key modacc_unique_cols (sr_cells r))
        (map (type_key modacc_unique_cols) (modacc_type_table recs))).
Proof.
  intros recs HF. unfold modacc_type_table, modacc_module_table.
  set (all := sort_values modacc_lt recs).
  set (t := type_table modacc_unique_cols (merge_totals all (groupby_sum all))).
  destruct (type_table_props modacc_unique_cols all (groupby_sum all)) as (H1 & H2 & H3).
  fold t in H1, H2, H3.
  rewrite length_map, length_combine, length_seq, Nat.min_id.
  split; [|split].
  - apply renumber_seq_numbers. apply Forall_forall. intros c Hc.
    destruct (H3 c Hc) as (r & Hr & <-).
    rewrite Forall_forall in HF. apply HF.
    exact (Permutation_in _ (sort_values_perm modacc_lt recs) Hr).
  - rewrite renumber_seq_keys. exact H1.
  - intros r Hr. rewrite renumber_seq_keys. apply H2.
    exact (Permutation_in _ (Permutation_sym (sort_values_perm modacc_lt recs)) Hr).
Qed.

Lemma modacc_type_table_numbered_witness :
  Forall (fun r => In (u "No.") (map fst (sr_cells r))) modacc_sample /\
  map (lookup_val (u "No.")) (modacc_type_table modacc_sample) = [VNum 1; VNum 2].
Proof.
  assert (HF : Forall (fun r => In (u "No.") (map fst (sr_cells r))) modacc_sample)
    by (repeat constructor).
  split; [exact HF|].
  rewrite (proj1 (modacc_type_table_numbered modacc_sample HF)).
  vm_compute. reflexivity.
Defined.
